(** * Arbitrary-state initialisation: gate trees, synthesis and optimisation

    A shallow embedding of
    [qiskit/extensions/quantum_initializer/_initializer.py].

    Numbers.  Python floats are idealised as exact rationals ([Q]); a complex
    amplitude is a pair of rationals.  Only [+], [*], [abs] and comparisons
    are computed on them here; the transcendental numpy kernels ([arccos],
    [angle], [exp], [sqrt]) are taken as parameters where a function of the
    source calls them.

    Objects.  A [CompositeGate] owns a mutable list [data]; a method that
    mutates [self.data] becomes a function from the list to the new list
    (together with what the method returns or raises). *)

From Stdlib Require Import List Arith Bool String QArith Qabs Lia.
Import ListNotations.

Local Close Scope Q_scope.
Local Open Scope string_scope.
Local Open Scope list_scope.
Set Warnings "-register-all".

(* ================================================================== *)
(** * Part I: the program *)

(* ================================================================== *)
(** ** Data model *)

(** A qubit is a (register, index) pair in the host; only its identity is
    ever used, so a number stands for it. *)
Definition qubit := nat.

(** Modelled from the spec: the leaf gates.  The gate classes of
    [qiskit.extensions.standard] ([CnotGate], [RYGate], [RZGate], [U3Gate],
    [XGate], and the class named "rx") are imported by the source but
    declared elsewhere; each is an elementary gate with a fixed name, its
    target qubit (and control qubit for CNOT) and, for rotations, one angle
    parameter. *)
Inductive Gate : Type :=
| RZGate (phi : Q) (q : qubit)
| RYGate (theta : Q) (q : qubit)
| RXGate (theta : Q) (q : qubit)
| CnotGate (ctl tgt : qubit)
| U3Gate (theta phi lam : Q) (q : qubit)
| XGate (q : qubit).

Definition name (g : Gate) : string :=
  match g with
  | RZGate _ _ => "rz"
  | RYGate _ _ => "ry"
  | RXGate _ _ => "rx"
  | CnotGate _ _ => "cx"
  | U3Gate _ _ _ _ => "u3"
  | XGate _ => "x"
  end.

Definition params (g : Gate) : list Q :=
  match g with
  | RZGate a _ | RYGate a _ | RXGate a _ => [a]
  | CnotGate _ _ => []
  | U3Gate t p l _ => [t; p; l]
  | XGate _ => []
  end.

Definition qargs (g : Gate) : list qubit :=
  match g with
  | RZGate _ q | RYGate _ q | RXGate _ q => [q]
  | CnotGate c t => [c; t]
  | U3Gate _ _ _ q => [q]
  | XGate q => [q]
  end.

(** The gate tree: a node of [data] is a leaf gate or a [CompositeGate]
    with its own [data].  (The name and qubit list of a composite are read
    by no function of the source and are left out.) *)
Inductive tree : Type :=
| Leaf (g : Gate)
| Composite (data : list tree).

(** What a method call does besides changing [self.data]: it returns a
    value or raises. *)
Inductive exn : Type :=
| QiskitError (msg : string)
| IndexError
| ValueError.

Inductive outcome (A : Type) : Type :=
| Returned (a : A)
| Raised (e : exn).
Arguments Returned {A} a.
Arguments Raised {A} e.

(* ================================================================== *)
(** ** Small numbers *)

(** [_EPS = 1e-10] *)
Definition _EPS : Q := (1 # 10000000000)%Q.

(** [chop_num]: [0 if abs(numb) < _EPS else numb] *)
Definition chop_num (numb : Q) : Q :=
  if Qlt_le_dec (Qabs numb) _EPS then 0%Q else numb.

(** [params[0]]; every rotation gate has exactly one parameter, so the
    default is never returned where the source indexes. *)
Definition param0 (g : Gate) : Q := hd 0%Q (params g).

(** The test of [remove_zero_rotations] under which a leaf is kept:
    [not (name in rz, ry, rx) or chop_num(params[0]) != 0]. *)
Definition keeps_leaf (g : Gate) : bool :=
  negb ((name g =? "rz") || (name g =? "ry") || (name g =? "rx"))
  || negb (Qeq_bool (chop_num (param0 g)) 0%Q).

(* ================================================================== *)
(** ** Order reverser *)

(** [reverse]: reverse the children at every level; leaves are kept as
    they are. *)
Fixpoint reverse (t : tree) : tree :=
  match t with
  | Leaf g => Leaf g
  | Composite data => Composite (rev (map reverse data))
  end.

(* ================================================================== *)
(** ** Zero-rotation elimination *)

(** The loop body of [remove_zero_rotations] for one element of
    [self.data]: the flag it contributes and what is appended to
    [new_data].  A composite is kept only [if gate.data]. *)
Definition rzr_item (rec : tree -> bool * tree) (gate : tree)
  : bool * list tree :=
  match gate with
  | Composite _ =>
      let '(b, gate') := rec gate in
      (b, match gate' with
          | Composite [] => []
          | _ => [gate']
          end)
  | Leaf g => if keeps_leaf g then (false, [gate]) else (true, [])
  end.

Definition rzr_loop (rec : tree -> bool * tree)
  : list tree -> bool * list tree :=
  fix loop (l : list tree) : bool * list tree :=
    match l with
    | [] => (false, [])
    | gate :: l' =>
        let '(removed_here, kept) := rzr_item rec gate in
        let '(removed_later, new_data) := loop l' in
        (removed_here || removed_later, kept ++ new_data)
    end.

(** [remove_zero_rotations] as a method of a node: the returned flag and
    the node with its new [data]. *)
Fixpoint remove_zero_rotations (self : tree) : bool * tree :=
  match self with
  | Leaf g => (false, Leaf g)
  | Composite data =>
      let r := rzr_loop remove_zero_rotations data in
      (fst r, Composite (snd r))
  end.

(** The same method seen from [self.data]. *)
Definition rzr_data (data : list tree) : bool * list tree :=
  rzr_loop remove_zero_rotations data.

(** [number_atomic_gates]: the number of leaf gates. *)
Fixpoint number_atomic_gates (self : tree) : nat :=
  match self with
  | Leaf _ => 1
  | Composite data => list_sum (map number_atomic_gates data)
  end.

(** The leaf gates of a tree, in circuit order. *)
Fixpoint leaves (t : tree) : list Gate :=
  match t with
  | Leaf g => [g]
  | Composite data => flat_map leaves data
  end.

(* ================================================================== *)
(** ** Double-CNOT cancellation *)

(** [first_atomic_gate_host]: the list that holds the leaf on the left
    edge, or [None]. *)
Fixpoint first_atomic_gate_host (self : tree) : option (list tree) :=
  match self with
  | Leaf _ => None
  | Composite data =>
      match data with
      | [] => None
      | Composite _ as c :: _ => first_atomic_gate_host c
      | Leaf _ :: _ => Some data
      end
  end.

(** [last_atomic_gate_host]: the list that holds the leaf on the right
    edge, or [None]. *)
Definition last_host_loop (rec : tree -> option (list tree))
  (data : list tree) : list tree -> option (list tree) :=
  fix go (l : list tree) : option (list tree) :=
    match l with
    | [] => None
    | x :: l' =>
        match l' with
        | [] => match x with
                | Composite _ => rec x
                | Leaf _ => Some data
                end
        | _ :: _ => go l'
        end
    end.

Fixpoint last_atomic_gate_host (self : tree) : option (list tree) :=
  match self with
  | Leaf _ => None
  | Composite data => last_host_loop last_atomic_gate_host data data
  end.

(** [del host[0]] seen from the node whose [first_atomic_gate_host] is
    [host]: the host list is shared with the tree, so the deletion shows
    in the tree. *)
Fixpoint del_first_atomic_gate (self : tree) : tree :=
  match self with
  | Leaf g => Leaf g
  | Composite data =>
      Composite match data with
                | [] => []
                | Composite _ as c :: l => del_first_atomic_gate c :: l
                | Leaf _ :: l => l
                end
  end.

(** [del host[-1]] seen from the node whose [last_atomic_gate_host] is
    [host]. *)
Definition del_last_loop (rec : tree -> tree)
  : list tree -> list tree :=
  fix go (l : list tree) : list tree :=
    match l with
    | [] => []
    | x :: l' =>
        match l' with
        | [] => match x with
                | Composite _ => [rec x]
                | Leaf _ => []
                end
        | _ :: _ => x :: go l'
        end
    end.

Fixpoint del_last_atomic_gate (self : tree) : tree :=
  match self with
  | Leaf g => Leaf g
  | Composite data => Composite (del_last_loop del_last_atomic_gate data)
  end.

(** [host[index]] as a leaf gate. *)
Definition gate_of (t : option tree) : option Gate :=
  match t with
  | Some (Leaf g) => Some g
  | _ => None
  end.

(** The gate [left_gate_host[left_gate_index]] for the node at index [i]:
    the node itself when it is a leaf ([host = self.data], index [i]), the
    last element ([index = -1]) of its [last_atomic_gate_host] otherwise. *)
Definition left_gate (x : tree) : option Gate :=
  match x with
  | Leaf g => Some g
  | Composite _ =>
      match last_atomic_gate_host x with
      | Some host => gate_of (nth_error host (List.length host - 1))
      | None => None
      end
  end.

(** The gate [right_gate_host[right_gate_index]] for the node at index
    [i + 1]. *)
Definition right_gate (y : tree) : option Gate :=
  match y with
  | Leaf g => Some g
  | Composite _ =>
      match first_atomic_gate_host y with
      | Some host => gate_of (nth_error host 0)
      | None => None
      end
  end.

(** What is left at index [i] after [del left_gate_host[left_gate_index]],
    and at index [i + 1] after [del right_gate_host[right_gate_index]]. *)
Definition del_left (x : tree) : list tree :=
  match x with
  | Leaf _ => []
  | Composite _ => [del_last_atomic_gate x]
  end.

Definition del_right (y : tree) : list tree :=
  match y with
  | Leaf _ => []
  | Composite _ => [del_first_atomic_gate y]
  end.

(** One iteration of the loop [for i in reversed(range(n - 1))] of
    [remove_double_cnots_once].  [x] is [self.data[i]], [rest] is the
    current [self.data[i+1:]], [removed] the current flag and [sub] what
    [self.data[i].remove_double_cnots_once()] does ([or] calls it only
    when the flag is still [False]).  The result is the flag, or the
    exception, and the new [self.data[i:]]. *)
Definition cnot_step (x : tree) (sub : outcome bool * tree)
  (removed : bool) (rest : list tree) : outcome bool * list tree :=
  let '(o, x1) :=
    match x with
    | Composite _ => if removed then (Returned true, x) else sub
    | Leaf _ => (Returned removed, x)
    end in
  match o with
  | Raised e => (Raised e, x1 :: rest)
  | Returned removed1 =>
      match left_gate x1 with
      | Some gl =>
          if name gl =? "cx" then
            match rest with
            | [] => (Raised IndexError, x1 :: rest)
            | y :: rest' =>
                match right_gate y with
                | Some gr =>
                    if (name gr =? "cx")
                       && (if list_eq_dec Nat.eq_dec (qargs gl) (qargs gr)
                           then true else false)
                    then (Returned true, del_left x1 ++ del_right y ++ rest')
                    else (Returned removed1, x1 :: rest)
                | None => (Returned removed1, x1 :: rest)
                end
            end
          else (Returned removed1, x1 :: rest)
      | None => (Returned removed1, x1 :: rest)
      end
  end.

(** The part of [remove_double_cnots_once] after the two early returns:
    the last gate first, then the indices below it in decreasing order. *)
Definition cnot_scan (rec : tree -> outcome bool * tree)
  : list tree -> outcome bool * list tree :=
  fix scan (l : list tree) : outcome bool * list tree :=
    match l with
    | [] => (Returned false, [])
    | x :: rest =>
        match rest with
        | [] =>
            match x with
            | Composite _ => let '(o, x') := rec x in (o, [x'])
            | Leaf _ => (Returned false, [x])
            end
        | _ :: _ =>
            let '(o, rest') := scan rest in
            match o with
            | Raised e => (Raised e, x :: rest')
            | Returned removed => cnot_step x (rec x) removed rest'
            end
        end
    end.

(** [remove_double_cnots_once] on [self.data]. *)
Definition rdco_body (rec : tree -> outcome bool * tree)
  (data : list tree) : outcome bool * list tree :=
  match data with
  | [] => (Returned false, [])
  | x :: l =>
      match x, l with
      | Composite _, [] => let '(o, x') := rec x in (o, [x'])
      | _, _ => cnot_scan rec data
      end
  end.

Fixpoint remove_double_cnots_once (self : tree) : outcome bool * tree :=
  match self with
  | Leaf g => (Returned false, Leaf g)
  | Composite data =>
      let r := rdco_body remove_double_cnots_once data in
      (fst r, Composite (snd r))
  end.

Definition rdco_data (data : list tree) : outcome bool * list tree :=
  rdco_body remove_double_cnots_once data.

(** [optimize_gates]: [remove_zero_rotations], then
    [while self.remove_double_cnots_once(): pass].  The loop is run on
    fuel; [None] means the fuel ran out. *)
Fixpoint cnot_loop (fuel : nat) (data : list tree)
  : option (outcome unit * list tree) :=
  match fuel with
  | O => None
  | S fuel' =>
      match rdco_data data with
      | (Raised e, data') => Some (Raised e, data')
      | (Returned true, data') => cnot_loop fuel' data'
      | (Returned false, data') => Some (Returned tt, data')
      end
  end.

Definition optimize_gates (data : list tree)
  : option (outcome unit * list tree) :=
  let data1 := snd (rzr_data data) in
  cnot_loop (S (number_atomic_gates (Composite data1))) data1.

(* ================================================================== *)
(** ** Multiplexed-rotation synthesizer *)

(** A call that may raise, run on fuel: [None] means the fuel ran out. *)
Definition run (A : Type) : Type := option (outcome A).

Definition ret {A : Type} (a : A) : run A := Some (Returned a).
Definition raise {A : Type} (e : exn) : run A := Some (Raised e).

Definition bind {A B : Type} (m : run A) (k : A -> run B) : run B :=
  match m with
  | None => None
  | Some (Raised e) => Some (Raised e)
  | Some (Returned a) => k a
  end.

Notation "x <- m ;; k" := (bind m (fun x => k))
  (at level 61, m at next level, right associativity).

(** [np.identity(n)] *)
Definition identity (n : nat) : list (list Q) :=
  map (fun i => map (fun j => if (i =? j)%nat then 1%Q else 0%Q) (seq 0 n))
      (seq 0 n).

(** [scipy.kron(a, b)]: the block matrix of the products [a[i][j] * b]. *)
Definition kron (a b : list (list Q)) : list (list Q) :=
  flat_map (fun ra =>
              map (fun rb => flat_map (fun x => map (Qmult x) rb) ra) b) a.

(** The inner product of a matrix row with a vector. *)
Fixpoint inner (row v : list Q) : Q :=
  match row, v with
  | x :: row', y :: v' => (x * y + inner row' v')%Q
  | _, _ => 0%Q
  end.

(** [m.dot(v)] for a matrix and a vector; numpy raises [ValueError] when
    the shapes are not aligned. *)
Definition dot (m : list (list Q)) (v : list Q) : run (list Q) :=
  if forallb (fun row => (List.length row =? List.length v)%nat) m
  then ret (map (fun row => inner row v) m)
  else raise ValueError.

(** [angle_weight]: [kron([[0.5, 0.5], [0.5, -0.5]], identity(2 ** (n - 2)))] *)
Definition angle_weight (local_num_qubits : nat) : list (list Q) :=
  kron [[(1 # 2)%Q; (1 # 2)%Q]; [(1 # 2)%Q; (- (1 # 2))%Q]]
       (identity (2 ^ (local_num_qubits - 2))).

Section Initializer.
(** The fields of [self] that the synthesizer reads. *)
Variable num_qubits : nat.
Variable self_qargs : list qubit.

(** [nth_qubit_from_least_sig_qubit]: [self.qargs[nth]] *)
Definition nth_qubit_from_least_sig_qubit (nth : nat) : run qubit :=
  match nth_error self_qargs nth with
  | Some q => ret q
  | None => raise IndexError
  end.

(** [_multiplex]; [bottom_gate] is the class [RZGate] or [RYGate]. *)
Fixpoint _multiplex (fuel : nat) (bottom_gate : Q -> qubit -> Gate)
  (bottom_qubit_index : nat) (list_of_angles : list Q) : run tree :=
  match fuel with
  | O => None
  | S fuel' =>
      let list_len := List.length list_of_angles in
      target_qubit <- nth_qubit_from_least_sig_qubit bottom_qubit_index ;;
      if (list_len =? 1)%nat then
        ret (Leaf (bottom_gate (hd 0%Q list_of_angles) target_qubit))
      else if (list_len =? 0)%nat then
        raise ValueError (* math.log2(0) *)
      else
        let local_num_qubits := Nat.log2 list_len + 1 in
        control_qubit <- nth_qubit_from_least_sig_qubit
                           (local_num_qubits - 1 + bottom_qubit_index) ;;
        list_of_angles' <- dot (angle_weight local_num_qubits)
                               list_of_angles ;;
        low <- _multiplex fuel' bottom_gate bottom_qubit_index
                 (firstn (list_len / 2) list_of_angles') ;;
        sub_gate <- _multiplex fuel' bottom_gate bottom_qubit_index
                      (skipn (list_len / 2) list_of_angles') ;;
        let sub_gate' :=
          match sub_gate with
          | Composite _ => reverse sub_gate
          | Leaf _ => sub_gate
          end in
        ret (Composite
               ([low; Leaf (CnotGate control_qubit target_qubit); sub_gate']
                ++ (if (num_qubits =? local_num_qubits + bottom_qubit_index)%nat
                    then [Leaf (CnotGate control_qubit target_qubit)]
                    else [])))
  end.

(** The method with fuel enough for any list. *)
Definition multiplex (bottom_gate : Q -> qubit -> Gate)
  (bottom_qubit_index : nat) (list_of_angles : list Q) : run tree :=
  _multiplex (S (List.length list_of_angles)) bottom_gate
    bottom_qubit_index list_of_angles.
End Initializer.

(* ================================================================== *)
(** ** Amplitudes, angle extraction and the two constructors *)

(** A complex amplitude. *)
Record complex : Type := Complex { re : Q; im : Q }.

(** [z.conjugate()] *)
Definition conjugate (z : complex) : complex :=
  {| re := re z; im := (- im z)%Q |}.

(** [r * z] for a real [r]. *)
Definition scale (r : Q) (z : complex) : complex :=
  {| re := (r * re z)%Q; im := (r * im z)%Q |}.

(** [np.absolute(z) ** 2], computed exactly. *)
Definition absolute_squared (z : complex) : Q :=
  (re z * re z + im z * im z)%Q.

(** The numpy kernels that have no rational counterpart. *)
Record Numpy : Type := {
  np_absolute : complex -> Q;   (* np.absolute(z) *)
  np_sqrt : Q -> Q;             (* np.sqrt(x) *)
  np_arccos : Q -> Q;           (* np.arccos(x) *)
  np_angle : complex -> Q;      (* np.angle(z) *)
  np_exp_j : Q -> complex;      (* np.exp(1.J * t) *)
  np_pi : Q                     (* np.pi *)
}.

(** The default [rel_tol=1e-09] of [math.isclose]. *)
Definition rel_tol_default : Q := (1 # 1000000000)%Q.

(** [math.isclose(a, b, abs_tol=...)] of the Python standard library:
    equal, or the difference is within [rel_tol] of the larger magnitude,
    or within [abs_tol]. *)
Definition isclose (a b abs_tol : Q) : bool :=
  let diff := Qabs (b - a) in
  Qeq_bool a b
  || Qle_bool diff (Qabs (rel_tol_default * b))
  || Qle_bool diff (Qabs (rel_tol_default * a))
  || Qle_bool diff abs_tol.

(** [sum(...)] of a list of numbers. *)
Definition sum (l : list Q) : Q := fold_left Qplus l 0%Q.

(** The object an [InitializeGate] constructor leaves behind. *)
Record InitializeGate : Type := {
  init_num_qubits : nat;
  init_params : list complex;
  init_qargs : list qubit;
  init_data : list tree;
  global_phase : complex;
  inverse_flag : bool
}.

(** The object a [GlobalPhaseGate] constructor leaves behind. *)
Record GlobalPhaseGate : Type := {
  phase_params : list complex;
  phase_qargs : list qubit;
  phase_data : list tree
}.

Section Synthesis.
Variable np : Numpy.
(** The host's [CompositeGate.inverse], applied to [self.data]. *)
Variable inverse : list tree -> list tree.

(** [_bloch_angles]: [(remaining, theta, phi)] for the pair [a, b]. *)
Definition _bloch_angles (a_complex b_complex : complex)
  : complex * Q * Q :=
  let mag_a := np_absolute np a_complex in
  let final_r :=
    np_sqrt np (mag_a ^ 2 + np_absolute np b_complex ^ 2)%Q in
  let '(theta, phi, final_r, final_t) :=
    if Qlt_le_dec final_r _EPS then (0%Q, 0%Q, 0%Q, 0%Q)
    else
      let theta := (2 * np_arccos np (mag_a / final_r))%Q in
      let a_arg := np_angle np a_complex in
      let b_arg := np_angle np b_complex in
      let final_t := (a_arg + b_arg)%Q in
      let phi := (b_arg - a_arg)%Q in
      (theta, phi, final_r, final_t) in
  (scale final_r (np_exp_j np (final_t / 2)), theta, phi).

(** [_rotations_to_disentangle]: one call of [_bloch_angles] for each
    of the [len // 2] pairs, the angles negated. *)
Fixpoint _rotations_to_disentangle (local_param : list complex)
  : list complex * list Q * list Q :=
  match local_param with
  | a :: b :: rest =>
      let '(remains, add_theta, add_phi) := _bloch_angles a b in
      let '(remaining_vector, thetas, phis) :=
        _rotations_to_disentangle rest in
      (remains :: remaining_vector,
       (- add_theta)%Q :: thetas, (- add_phi)%Q :: phis)
  | _ => ([], [], [])
  end.

(** The loop of [gates_to_uncompute]: [count] iterations from index
    [i] on, appending to [data]. *)
Fixpoint uncompute_loop (num_qubits : nat) (self_qargs : list qubit)
  (count i : nat) (remaining_param : list complex) (data : list tree)
  : run (list complex * list tree) :=
  match count with
  | O => ret (remaining_param, data)
  | S count' =>
      let '(remaining_param', thetas, phis) :=
        _rotations_to_disentangle remaining_param in
      rz <- multiplex num_qubits self_qargs RZGate i phis ;;
      ry <- multiplex num_qubits self_qargs RYGate i thetas ;;
      uncompute_loop num_qubits self_qargs count' (S i)
        remaining_param' (data ++ [rz; ry])
  end.

(** [gates_to_uncompute]: the global phase it returns and [self.data]. *)
Definition gates_to_uncompute (num_qubits : nat)
  (params : list complex) (self_qargs : list qubit)
  : run (complex * list tree) :=
  r <- uncompute_loop num_qubits self_qargs num_qubits 0 params [] ;;
  match fst r with
  | z :: _ => ret (z, snd r)
  | [] => raise IndexError
  end.

(** [optimize_gates] inside a constructor. *)
Definition optimized (data : list tree) : run (list tree) :=
  match optimize_gates data with
  | None => None
  | Some (Returned _, data') => ret data'
  | Some (Raised e, _) => raise e
  end.

(** [InitializeGate.__init__] *)
Definition InitializeGate__init__ (params : list complex)
  (qargs : list qubit) : run InitializeGate :=
  let len := List.length params in
  if (len =? 0)%nat then raise ValueError (* math.log2(0) *)
  else
    let num_qubits := Nat.log2 len in
    if (len =? 1)%nat || negb (2 ^ num_qubits =? len)%nat then
      raise (QiskitError "Desired vector not a positive power of 2.")
    else if negb (List.length qargs =? num_qubits)%nat then
      raise (QiskitError
               ("Number of complex amplitudes do not correspond "
                ++ "to the number of qubits."))
    else if negb (isclose (sum (map absolute_squared params)) 1 _EPS) then
      raise (QiskitError "Sum of amplitudes-squared does not equal one.")
    else
      r <- gates_to_uncompute num_qubits params qargs ;;
      data <- optimized (snd r) ;;
      ret {| init_num_qubits := num_qubits;
             init_params := params;
             init_qargs := qargs;
             init_data := inverse data;
             global_phase := conjugate (fst r);
             inverse_flag := false |}.

(** [GlobalPhaseGate.__init__] *)
Definition GlobalPhaseGate__init__ (params : list complex)
  (qargs : list qubit) : run GlobalPhaseGate :=
  match qargs with
  | [] => raise (QiskitError "Need at least one qubit.")
  | q0 :: _ =>
      match params with
      | [p0] =>
          if negb (isclose (np_absolute np p0) 1 _EPS) then
            raise (QiskitError "Phase not of unit length")
          else
            let phase := np_angle np p0 in
            ret {| phase_params := params;
                   phase_qargs := qargs;
                   phase_data :=
                     [Leaf (U3Gate (np_pi np) phase
                              (np_pi np + phase)%Q q0);
                      Leaf (XGate q0)] |}
      | _ =>
          raise (QiskitError
                   ("Global Phase takes a list of one and only "
                    ++ "one parameter."))
      end
  end.
End Synthesis.

(* ================================================================== *)
(** * Part II: the vocabulary of the properties *)

(** The leaves of a list of nodes, in order. *)
Definition leaves_data (data : list tree) : list Gate :=
  flat_map leaves data.

(** *** Cancelling adjacent CNOT pairs in the leaf sequence *)

(** One deletion: two neighbouring leaves, both named "cx", with the same
    qubit arguments, disappear; everything else stays in place. *)
Inductive cancel_step : list Gate -> list Gate -> Prop :=
| cancel_pair l1 g1 g2 l2 :
    name g1 = "cx" -> name g2 = "cx" -> qargs g1 = qargs g2 ->
    cancel_step (l1 ++ g1 :: g2 :: l2) (l1 ++ l2).

Inductive cancels : list Gate -> list Gate -> Prop :=
| cancels_refl l : cancels l l
| cancels_cons l1 l2 l3 :
    cancel_step l1 l2 -> cancels l2 l3 -> cancels l1 l3.

#[local] Hint Constructors cancels : core.

(** What a call of [remove_double_cnots_once] may do to the leaf
    sequence [L]: cancel pairs; nothing at all when it returns [False];
    at least one pair when it returns [True]. *)
Definition pass_ok {A : Type} (L : A -> list Gate)
  (before : A) (r : outcome bool * A) : Prop :=
  cancels (L before) (L (snd r)) /\
  match fst r with
  | Returned false => snd r = before
  | Returned true => List.length (L (snd r)) + 2 <= List.length (L before)
  | Raised _ => True
  end.

(** *** Zero rotations and childless composites *)

(** A rotation leaf (about the Z, Y or X axis) whose angle is smaller in
    magnitude than [_EPS]. *)
Definition zero_rotation (g : Gate) : Prop :=
  match g with
  | RZGate a _ | RYGate a _ | RXGate a _ => (Qabs a < _EPS)%Q
  | _ => False
  end.

Definition zero_rotationb (g : Gate) : bool :=
  match g with
  | RZGate a _ | RYGate a _ | RXGate a _ =>
      if Qlt_le_dec (Qabs a) _EPS then true else false
  | _ => false
  end.

Definition kept (g : Gate) : bool := negb (zero_rotationb g).

(** A child of [self.data] after the pass, as the claim words it: a
    zero rotation goes, any other leaf stays; a composite is replaced by
    its own result, and goes when that result has no children. *)
Definition rzr_child (gate : tree) : list tree :=
  match gate with
  | Leaf g => if zero_rotationb g then [] else [Leaf g]
  | Composite data =>
      match snd (rzr_data data) with
      | [] => []
      | data' => [Composite data']
      end
  end.

(** No composite without children, at any depth below the top list. *)
Fixpoint no_empty_composite (t : tree) : bool :=
  match t with
  | Leaf _ => true
  | Composite data =>
      match data with
      | [] => false
      | _ :: _ => forallb no_empty_composite data
      end
  end.

Definition not_cx (g : Gate) : bool := negb (name g =? "cx").

(** *** The angle transform *)

(** [angle_weight.dot(list_of_angles)] *)
Definition transformed (l : list Q) : list Q :=
  map (fun row => inner row l) (angle_weight (Nat.log2 (List.length l) + 1)).

(** The transformed list as the claim words it: half the sum and half
    the difference of the entries at the same place in the two halves. *)
Definition half_sums (l : list Q) : list Q :=
  map (fun p => ((fst p + snd p) / 2)%Q)
      (combine (firstn (List.length l / 2) l) (skipn (List.length l / 2) l)).

Definition half_differences (l : list Q) : list Q :=
  map (fun p => ((fst p - snd p) / 2)%Q)
      (combine (firstn (List.length l / 2) l) (skipn (List.length l / 2) l)).

(** *** The synthesizer on lists of length [2 ^ k] *)

Section MuxTree.
Variable num_qubits : nat.
Variable self_qargs : list qubit.
Variable bottom_gate : Q -> qubit -> Gate.
Variable bottom_qubit_index : nat.

(** The tree built for a list of length [2 ^ k], by recursion on [k]:
    the target is the qubit at offset [bottom_qubit_index], the control
    the one at offset [k + bottom_qubit_index]. *)
Fixpoint mux_tree (k : nat) (l : list Q) : tree :=
  match k with
  | O => Leaf (bottom_gate (hd 0%Q l) (nth bottom_qubit_index self_qargs 0))
  | S k' =>
      let cnot :=
        Leaf (CnotGate (nth (k + bottom_qubit_index) self_qargs 0)
                       (nth bottom_qubit_index self_qargs 0)) in
      Composite
        ([mux_tree k' (firstn (2 ^ k') (transformed l)); cnot;
          reverse (mux_tree k' (skipn (2 ^ k') (transformed l)))]
         ++ (if (num_qubits =? k + 1 + bottom_qubit_index)%nat
             then [cnot] else []))
  end.
End MuxTree.

(** *** Validation *)

(** Kernels to run examples with; validation never calls them. *)
Definition kernels_for_examples : Numpy :=
  {| np_absolute := fun z => (Qabs (re z) + Qabs (im z))%Q;
     np_sqrt := fun x => x;
     np_arccos := fun _ => 0%Q;
     np_angle := fun _ => 0%Q;
     np_exp_j := fun _ => Complex 1 0;
     np_pi := (355 # 113)%Q |}.


(** ** Vocabulary of the further properties *)

(** *** What a pass of cancellation that returns [False] leaves behind *)

(** The test of [remove_double_cnots_once] on two neighbours: both edge
    gates exist, both are named "cx", and their qubit arguments agree. *)
Definition cancellable (x y : tree) : bool :=
  match left_gate x, right_gate y with
  | Some gl, Some gr =>
      (name gl =? "cx") && (name gr =? "cx")
      && (if list_eq_dec Nat.eq_dec (qargs gl) (qargs gr)
          then true else false)
  | _, _ => false
  end.

(** No two neighbours of a list pass that test. *)
Fixpoint no_cancellable_neighbours (l : list tree) : bool :=
  match l with
  | [] => true
  | x :: rest =>
      match rest with
      | [] => true
      | y :: _ => negb (cancellable x y) && no_cancellable_neighbours rest
      end
  end.

(** The same in every list of the tree. *)
Fixpoint settled (t : tree) : bool :=
  match t with
  | Leaf _ => true
  | Composite data =>
      no_cancellable_neighbours data && forallb settled data
  end.

(** A call that raises nothing but [IndexError]. *)
Definition raises_only_IndexError {A : Type} (r : outcome bool * A) : Prop :=
  match fst r with
  | Raised e => e = IndexError
  | Returned _ => True
  end.

(** For a recursive call: it returns [False] exactly on settled nodes,
    which it leaves as they are. *)
Definition false_means_settled (rec : tree -> outcome bool * tree)
  (x : tree) : Prop :=
  forall x', rec x = (Returned false, x') <-> (x' = x /\ settled x = true).

(** *** The uncompute circuit *)

(** The number of leaf gates [gates_to_uncompute] attaches in its last
    [count] iterations: two multiplexors of [2 ^ count] leaves each for
    every level but the last, two single rotations for the last. *)
Definition uncompute_size (count : nat) : nat :=
  match count with
  | O => 0
  | S _ => 2 ^ (count + 2) - 6
  end.

(** What the leaves of the uncompute circuit over the qubits [qargs]
    are: a Z or Y rotation on one of them, or a CNOT onto one of them
    controlled by one further up the list. *)
Definition uncompute_gate (qargs : list qubit) (g : Gate) : Prop :=
  (exists i a t,
      nth_error qargs i = Some t /\ (g = RZGate a t \/ g = RYGate a t)) \/
  (exists i j c t,
      i < j /\ nth_error qargs i = Some t /\ nth_error qargs j = Some c /\
      g = CnotGate c t).

(** *** Trees on which the cancellation pass cannot run off a list *)

Definition is_cx_leaf (t : tree) : bool :=
  match t with
  | Leaf g => name g =? "cx"
  | Composite _ => false
  end.

Definition is_other_leaf (t : tree) : bool :=
  match t with
  | Leaf g => negb (name g =? "cx")
  | Composite _ => false
  end.

(** Exactly two elements, both leaves named "cx". *)
Definition two_cx (l : list tree) : bool :=
  match l with
  | [c1; c2] => is_cx_leaf c1 && is_cx_leaf c2
  | _ => false
  end.

(** When a list ends with two leaves named "cx", what stands before
    them, if anything, is a leaf that is not a "cx". *)
Fixpoint tail_ok (l : list tree) : bool :=
  match l with
  | [] => true
  | p :: rest => (negb (two_cx rest) || is_other_leaf p) && tail_ok rest
  end.

(** The same for every list of the tree. *)
Fixpoint calm (t : tree) : bool :=
  match t with
  | Leaf _ => true
  | Composite data => tail_ok data && forallb calm data
  end.

(** What a pass can do to one list: leaves named "cx" may go, every
    other leaf stays as it is, and a composite stays a composite. *)
Inductive thin : list tree -> list tree -> Prop :=
| thin_nil : thin [] []
| thin_leaf g l l' : thin l l' -> thin (Leaf g :: l) (Leaf g :: l')
| thin_composite d d' l l' :
    thin l l' -> thin (Composite d :: l) (Composite d' :: l')
| thin_drop g l l' : name g = "cx" -> thin l l' -> thin (Leaf g :: l) l'.

(** A recursive call that returns, keeps the node calm and keeps a
    composite a composite. *)
Definition calm_result (x : tree) (r : outcome bool * tree) : Prop :=
  (exists b, fst r = Returned b) /\
  calm (snd r) = true /\
  thin [x] [snd r].

(** *** The shape of an inner multiplexor *)

(** The tree [_multiplex] builds below the outermost level, for [2 ^ k]
    angles: a rotation for k = 0, else two such trees around a CNOT. *)
Inductive plain : nat -> tree -> Prop :=
| plain_rz a q : plain 0 (Leaf (RZGate a q))
| plain_ry a q : plain 0 (Leaf (RYGate a q))
| plain_node k a b c t :
    plain k a -> plain k b ->
    plain (S k) (Composite [a; Leaf (CnotGate c t); b]).

(** A node that is not a leaf named "cx" and is calm. *)
Definition quiet (x : tree) : Prop :=
  is_cx_leaf x = false /\ calm x = true.

(* ================================================================== *)
(** * Part III: lemmas *)

(** ** Induction on gate trees and the leaf sequence *)

Lemma tree_ind' (P : tree -> Prop) :
  (forall g, P (Leaf g)) ->
  (forall data, Forall P data -> P (Composite data)) ->
  forall t, P t.
Proof.
  intros HLeaf HComposite. fix IH 1. intros [g | data].
  - apply HLeaf.
  - apply HComposite.
    induction data as [| x l IHl]; constructor; [apply IH | exact IHl].
Qed.

Lemma leaves_data_cons x l :
  leaves_data (x :: l) = leaves x ++ leaves_data l.
Proof. reflexivity. Qed.

Lemma leaves_data_app l1 l2 :
  leaves_data (l1 ++ l2) = leaves_data l1 ++ leaves_data l2.
Proof. apply flat_map_app. Qed.

Lemma number_atomic_gates_leaves t :
  number_atomic_gates t = List.length (leaves t).
Proof.
  induction t as [g | data IH] using tree_ind'; [reflexivity |].
  simpl. induction IH as [| x l Hx _ IHl]; [reflexivity |].
  simpl. rewrite length_app. congruence.
Qed.

(* ------------------------------------------------------------------ *)
(** *** The edge leaves and their deletion *)

Lemma right_gate_leaves y g :
  right_gate y = Some g ->
  leaves y = g :: leaves_data (del_right y).
Proof.
  revert g. induction y as [g0 | data IH] using tree_ind'; intros g H.
  - simpl in H. injection H as <-. reflexivity.
  - unfold right_gate in H. simpl in H.
    destruct data as [| x l]; [discriminate |].
    inversion IH as [| ? ? Hx _]; subst.
    destruct x as [gx | dx].
    + simpl in H. injection H as <-. simpl. rewrite app_nil_r. reflexivity.
    + specialize (Hx g). unfold right_gate in Hx.
      specialize (Hx H). simpl in Hx. rewrite app_nil_r in Hx.
      simpl. rewrite app_nil_r.
      change (leaves (Composite dx)) with (flat_map leaves dx).
      rewrite Hx. reflexivity.
Qed.

Lemma last_host_loop_leaves data pre l host g :
  Forall (fun x => forall g,
              left_gate x = Some g ->
              leaves x = leaves_data (del_left x) ++ [g]) l ->
  data = pre ++ l ->
  last_host_loop last_atomic_gate_host data l = Some host ->
  gate_of (nth_error host (List.length host - 1)) = Some g ->
  leaves_data l =
  leaves_data (del_last_loop del_last_atomic_gate l) ++ [g].
Proof.
  intros IH. revert pre.
  induction IH as [| x l Hx Hl IHl]; intros pre Hdata Hhost Hg.
  - discriminate.
  - simpl in Hhost. destruct l as [| x' l'].
    + destruct x as [gx | dx].
      * injection Hhost as <-. subst data.
        rewrite length_app in Hg. simpl in Hg.
        rewrite nth_error_app2 in Hg by lia.
        replace (List.length pre + 1 - 1 - List.length pre) with 0 in Hg
          by lia.
        simpl in Hg. injection Hg as <-. reflexivity.
      * specialize (Hx g). unfold left_gate in Hx. rewrite Hhost in Hx.
        specialize (Hx Hg). simpl in Hx |- *.
        rewrite !app_nil_r in *. exact Hx.
    + change (del_last_loop del_last_atomic_gate (x :: x' :: l'))
        with (x :: del_last_loop del_last_atomic_gate (x' :: l')).
      rewrite !leaves_data_cons with (x := x).
      rewrite (IHl (pre ++ [x])); auto.
      * rewrite app_assoc. reflexivity.
      * rewrite <- app_assoc. exact Hdata.
Qed.

Lemma left_gate_leaves x g :
  left_gate x = Some g ->
  leaves x = leaves_data (del_left x) ++ [g].
Proof.
  revert g. induction x as [g0 | data IH] using tree_ind'; intros g H.
  - simpl in H. injection H as <-. reflexivity.
  - unfold left_gate in H.
    destruct (last_atomic_gate_host (Composite data)) as [host |] eqn:Hh;
      [| discriminate].
    simpl in Hh. simpl. rewrite app_nil_r.
    apply (last_host_loop_leaves data [] data host g); auto.
Qed.

(* ------------------------------------------------------------------ *)
(** ** One pass of double-CNOT cancellation *)

Lemma cancels_trans l1 l2 l3 :
  cancels l1 l2 -> cancels l2 l3 -> cancels l1 l3.
Proof. induction 1; eauto. Qed.

Lemma cancel_step_frame a b l l' :
  cancel_step l l' -> cancel_step (a ++ l ++ b) (a ++ l' ++ b).
Proof.
  intros [l1 g1 g2 l2 H1 H2 H3].
  replace (a ++ (l1 ++ g1 :: g2 :: l2) ++ b)
    with ((a ++ l1) ++ g1 :: g2 :: (l2 ++ b))
    by (rewrite <- !app_assoc; reflexivity).
  replace (a ++ (l1 ++ l2) ++ b) with ((a ++ l1) ++ (l2 ++ b))
    by (rewrite <- !app_assoc; reflexivity).
  now constructor.
Qed.

Lemma cancels_frame a b l l' :
  cancels l l' -> cancels (a ++ l ++ b) (a ++ l' ++ b).
Proof.
  induction 1; eauto using cancel_step_frame.
Qed.

Lemma cancels_app_l a l l' : cancels l l' -> cancels (a ++ l) (a ++ l').
Proof.
  intros H. apply (cancels_frame a []) in H.
  now rewrite !app_nil_r in H.
Qed.

Lemma cancels_app_r b l l' : cancels l l' -> cancels (l ++ b) (l' ++ b).
Proof. intros H. now apply (cancels_frame [] b) in H. Qed.

Lemma cancel_step_length l l' :
  cancel_step l l' -> List.length l = List.length l' + 2.
Proof.
  intros [l1 g1 g2 l2 _ _ _]. rewrite !length_app. simpl. lia.
Qed.

Lemma cancels_length l l' :
  cancels l l' -> List.length l' <= List.length l.
Proof.
  induction 1 as [| ? ? ? Hs]; [lia |].
  apply cancel_step_length in Hs. lia.
Qed.

Lemma cnot_step_spec x sub removed rest :
  pass_ok leaves x sub ->
  let r := cnot_step x sub removed rest in
  cancels (leaves_data (x :: rest)) (leaves_data (snd r)) /\
  match fst r with
  | Returned b =>
      (b = removed /\ snd r = x :: rest) \/
      (b = true /\
       List.length (leaves_data (snd r)) + 2
       <= List.length (leaves_data (x :: rest)))
  | Raised _ => True
  end.
Proof.
  intros [Hc Hf]. unfold cnot_step.
  (* the node at index i after the optional recursive call *)
  assert (Hsub :
    forall o x1,
      match x with
      | Composite _ => if removed then (Returned true, x) else sub
      | Leaf _ => (Returned removed, x)
      end = (o, x1) ->
      cancels (leaves x) (leaves x1) /\
      match o with
      | Returned b =>
          (b = removed /\ x1 = x) \/
          (b = true /\ List.length (leaves x1) + 2 <= List.length (leaves x))
      | Raised _ => True
      end).
  { intros o x1 E. destruct x as [g | d].
    - injection E as <- <-. auto.
    - destruct removed.
      + injection E as <- <-. auto.
      + destruct sub as [o' x']. injection E as <- <-. simpl in *.
        split; [exact Hc |].
        destruct o' as [[|] | e]; auto. }
  destruct (match x with
            | Composite _ => if removed then (Returned true, x) else sub
            | Leaf _ => (Returned removed, x)
            end) as [o x1] eqn:E.
  destruct (Hsub o x1 eq_refl) as [Hc1 Hf1]. clear Hsub E.
  assert (Hkeep : cancels (leaves_data (x :: rest)) (leaves_data (x1 :: rest))).
  { rewrite !leaves_data_cons. now apply cancels_app_r. }
  assert (Hlen : List.length (leaves x1) <= List.length (leaves x))
    by now apply cancels_length.
  assert (Hstay :
    forall b, (b = removed /\ x1 = x) \/
              (b = true /\
               List.length (leaves x1) + 2 <= List.length (leaves x)) ->
    (b = removed /\ x1 :: rest = x :: rest) \/
    (b = true /\
     List.length (leaves_data (x1 :: rest)) + 2
     <= List.length (leaves_data (x :: rest)))).
  { intros b [[-> ->] | [-> Hl]]; [left; auto | right].
    split; [reflexivity |]. rewrite !leaves_data_cons, !length_app. lia. }
  destruct o as [removed1 | e]; [| simpl; auto].
  destruct (left_gate x1) as [gl |] eqn:Hgl; [| simpl; auto].
  destruct (name gl =? "cx") eqn:Hnl; [| simpl; auto].
  destruct rest as [| y rest']; [simpl; auto |].
  destruct (right_gate y) as [gr |] eqn:Hgr; [| simpl; auto].
  destruct ((name gr =? "cx")
            && (if list_eq_dec Nat.eq_dec (qargs gl) (qargs gr)
                then true else false)) eqn:Hpair; [| simpl; auto].
  apply andb_prop in Hpair. destruct Hpair as [Hnr Hq].
  destruct (list_eq_dec Nat.eq_dec (qargs gl) (qargs gr)) as [Hq' |];
    [| discriminate].
  apply String.eqb_eq in Hnl, Hnr.
  apply left_gate_leaves in Hgl. apply right_gate_leaves in Hgr.
  assert (Hstep :
    cancel_step (leaves_data (x1 :: y :: rest'))
      (leaves_data (del_left x1 ++ del_right y ++ rest'))).
  { rewrite !leaves_data_cons, !leaves_data_app, Hgl, Hgr.
    rewrite <- !app_assoc. simpl.
    apply (cancel_step_frame (leaves_data (del_left x1))
             (leaves_data (del_right y) ++ leaves_data rest')
             [gl; gr] []).
    now apply (cancel_pair [] gl gr []). }
  simpl fst. simpl snd. split.
  - eapply cancels_trans; [exact Hkeep |]. eauto.
  - right. split; [reflexivity |].
    apply cancel_step_length in Hstep.
    rewrite !leaves_data_cons, !length_app in *. lia.
Qed.

Lemma pass_ok_singleton x (r : outcome bool * tree) :
  pass_ok leaves x r ->
  pass_ok leaves_data [x] (let '(o, x') := r in (o, [x'])).
Proof.
  destruct r as [o x']. unfold pass_ok, leaves_data. simpl.
  rewrite !app_nil_r. intros [Hc Hf]. split; [exact Hc |].
  destruct o as [[|] | e]; auto. now subst.
Qed.

Lemma cnot_scan_spec (rec : tree -> outcome bool * tree) l :
  Forall (fun x => pass_ok leaves x (rec x)) l ->
  pass_ok leaves_data l (cnot_scan rec l).
Proof.
  induction 1 as [| x rest Hx Hrest IH].
  - split; simpl; auto.
  - simpl. destruct rest as [| x' rest'].
    + destruct x as [g | d].
      * split; simpl; auto.
      * now apply pass_ok_singleton.
    + destruct (cnot_scan rec (x' :: rest')) as [o rest1].
      destruct IH as [Hc Hf]. simpl in Hc, Hf.
      assert (Hlen := cancels_length _ _ Hc).
      destruct o as [removed | e].
      * pose proof (cnot_step_spec x (rec x) removed rest1 Hx) as [Hc' Hf'].
        split.
        { eapply cancels_trans; [| exact Hc'].
          rewrite !leaves_data_cons with (x := x).
          now apply cancels_app_l. }
        destruct (fst (cnot_step x (rec x) removed rest1))
          as [b | e]; [| exact I].
        rewrite !leaves_data_cons with (x := x) in *.
        rewrite !length_app in *.
        destruct Hf' as [[-> Hsame] | [-> Hl]].
        { rewrite Hsame. destruct removed.
          - rewrite !leaves_data_cons, !length_app. lia.
          - now subst. }
        { rewrite leaves_data_cons, length_app. lia. }
      * split; [| exact I]. simpl snd.
        rewrite !leaves_data_cons with (x := x). now apply cancels_app_l.
Qed.

Lemma rdco_body_spec (rec : tree -> outcome bool * tree) data :
  Forall (fun x => pass_ok leaves x (rec x)) data ->
  pass_ok leaves_data data (rdco_body rec data).
Proof.
  intros H. unfold rdco_body.
  destruct data as [| x l]; [split; simpl; auto |].
  destruct x as [g | d]; [now apply cnot_scan_spec |].
  destruct l as [| x' l']; [| now apply cnot_scan_spec].
  apply pass_ok_singleton. now inversion H.
Qed.

Lemma remove_double_cnots_once_spec t :
  pass_ok leaves t (remove_double_cnots_once t).
Proof.
  induction t as [g | data IH] using tree_ind'.
  - split; simpl; auto.
  - apply rdco_body_spec in IH.
    change (remove_double_cnots_once (Composite data))
      with (fst (rdco_body remove_double_cnots_once data),
            Composite (snd (rdco_body remove_double_cnots_once data))).
    destruct IH as [Hc Hf]. split; [exact Hc |]. simpl.
    destruct (fst (rdco_body remove_double_cnots_once data))
      as [[|] | e]; auto.
    now rewrite Hf.
Qed.

Lemma rdco_data_spec data : pass_ok leaves_data data (rdco_data data).
Proof.
  apply rdco_body_spec, Forall_forall. intros x _.
  apply remove_double_cnots_once_spec.
Qed.

(* ------------------------------------------------------------------ *)
(** ** Zero-rotation elimination *)

Lemma zero_rotationb_spec g : zero_rotationb g = true <-> zero_rotation g.
Proof.
  destruct g; simpl; try (split; [discriminate | contradiction]);
    destruct (Qlt_le_dec (Qabs _) _EPS) as [H | H];
    (split; [auto | auto]); try discriminate;
    intros H'; exfalso; apply (Qlt_irrefl _EPS);
    eapply Qle_lt_trans; eauto.
Qed.

Lemma chop_num_nonzero a :
  Qeq_bool (chop_num a) 0 = if Qlt_le_dec (Qabs a) _EPS then true else false.
Proof.
  unfold chop_num. destruct (Qlt_le_dec (Qabs a) _EPS) as [H | H];
    [reflexivity |].
  destruct (Qeq_bool a 0) eqn:E; [| reflexivity].
  apply Qeq_bool_eq in E. exfalso.
  rewrite E in H. revert H. unfold _EPS. compute. intros H. now apply H.
Qed.

(** The test of the source deletes exactly the zero rotations. *)
Lemma keeps_leaf_spec g : keeps_leaf g = negb (zero_rotationb g).
Proof.
  unfold keeps_leaf, param0.
  destruct g; simpl; try reflexivity; now rewrite chop_num_nonzero.
Qed.

Lemma rzr_item_child gate :
  snd (rzr_item remove_zero_rotations gate) = rzr_child gate.
Proof.
  destruct gate as [g | d]; simpl.
  - rewrite keeps_leaf_spec. now destruct (zero_rotationb g).
  - fold (rzr_data d). now destruct (snd (rzr_data d)).
Qed.

Lemma rzr_data_cons gate l :
  snd (rzr_data (gate :: l)) = rzr_child gate ++ snd (rzr_data l).
Proof.
  unfold rzr_data. simpl rzr_loop. rewrite <- rzr_item_child.
  destruct (rzr_item remove_zero_rotations gate).
  fold (rzr_data l). now destruct (rzr_data l).
Qed.

Lemma rzr_data_flat_map data :
  snd (rzr_data data) = flat_map rzr_child data.
Proof.
  induction data as [| gate l IH]; [reflexivity |].
  rewrite rzr_data_cons, IH. reflexivity.
Qed.

Lemma leaves_data_filter (f : tree -> list tree) l :
  Forall (fun x => leaves_data (f x) = filter kept (leaves x)) l ->
  leaves_data (flat_map f l) = filter kept (leaves_data l).
Proof.
  induction 1 as [| x l Hx _ IH]; [reflexivity |].
  change (flat_map f (x :: l)) with (f x ++ flat_map f l).
  rewrite leaves_data_app, leaves_data_cons, filter_app.
  congruence.
Qed.

Lemma rzr_child_leaves t :
  leaves_data (rzr_child t) = filter kept (leaves t).
Proof.
  induction t as [g | data IH] using tree_ind'.
  - unfold kept. simpl. now destruct (zero_rotationb g).
  - apply leaves_data_filter in IH.
    rewrite <- rzr_data_flat_map in IH.
    simpl. fold (leaves_data data). rewrite <- IH.
    destruct (snd (rzr_data data)); [reflexivity |].
    unfold leaves_data. simpl. now rewrite app_nil_r.
Qed.

Lemma rzr_data_leaves data :
  leaves_data (snd (rzr_data data)) = filter kept (leaves_data data).
Proof.
  rewrite rzr_data_flat_map. apply leaves_data_filter, Forall_forall.
  intros x _. apply rzr_child_leaves.
Qed.

Lemma rzr_child_fixed t :
  no_empty_composite t = true ->
  Forall (fun g => kept g = true) (leaves t) ->
  rzr_item remove_zero_rotations t = (false, [t]).
Proof.
  induction t as [g | data IH] using tree_ind'; intros Hne Hk.
  - simpl in *. rewrite keeps_leaf_spec. inversion Hk; subst.
    unfold kept in *. now destruct (zero_rotationb g).
  - assert (Hd : rzr_loop remove_zero_rotations data = (false, data)).
    { assert (Hne' : forallb no_empty_composite data = true)
        by (simpl in Hne; now destruct data).
      clear Hne. simpl in Hk. fold (leaves_data data) in Hk.
      induction IH as [| x l Hx _ IHl]; [reflexivity |].
      simpl in Hne'. apply andb_prop in Hne'. destruct Hne' as [H1 H2].
      rewrite leaves_data_cons in Hk. apply Forall_app in Hk.
      destruct Hk as [Hk1 Hk2].
      simpl. rewrite (Hx H1 Hk1), (IHl Hk2 H2). reflexivity. }
    simpl. rewrite Hd. simpl.
    destruct data; [discriminate | reflexivity].
Qed.

Lemma rzr_data_fixed data :
  forallb no_empty_composite data = true ->
  Forall (fun g => kept g = true) (leaves_data data) ->
  rzr_data data = (false, data).
Proof.
  unfold rzr_data.
  induction data as [| x l IH]; intros Hne Hk; [reflexivity |].
  simpl in Hne. apply andb_prop in Hne. destruct Hne as [H1 H2].
  rewrite leaves_data_cons in Hk. apply Forall_app in Hk.
  destruct Hk as [Hk1 Hk2].
  simpl. rewrite (rzr_child_fixed x H1 Hk1), (IH H2 Hk2). reflexivity.
Qed.

(* ------------------------------------------------------------------ *)
(** *** What cancelling keeps *)

Lemma cancel_step_Forall (P : Gate -> Prop) l l' :
  cancel_step l l' -> Forall P l -> Forall P l'.
Proof.
  intros [l1 g1 g2 l2 _ _ _] H. apply Forall_app in H.
  destruct H as [H1 H2]. apply Forall_app. split; [exact H1 |].
  now inversion H2 as [| ? ? _ H3]; inversion H3.
Qed.

Lemma cancels_Forall (P : Gate -> Prop) l l' :
  cancels l l' -> Forall P l -> Forall P l'.
Proof. induction 1; eauto using cancel_step_Forall. Qed.

Lemma cancels_not_cx l l' :
  cancels l l' -> filter not_cx l' = filter not_cx l.
Proof.
  induction 1 as [| ? ? ? [l1 g1 g2 l2 H1 H2 _] _ IH]; [reflexivity |].
  rewrite IH, !filter_app.
  f_equal. cbn [filter].
  assert (E1 : not_cx g1 = false) by (unfold not_cx; now rewrite H1).
  assert (E2 : not_cx g2 = false) by (unfold not_cx; now rewrite H2).
  now rewrite E1, E2.
Qed.

(* ------------------------------------------------------------------ *)
(** *** The fixpoint loop *)

Lemma cnot_loop_total fuel data :
  List.length (leaves_data data) < fuel ->
  exists r, cnot_loop fuel data = Some r.
Proof.
  revert data. induction fuel as [| fuel IH]; intros data Hlt; [lia |].
  simpl. destruct (rdco_data_spec data) as [_ Hf].
  destruct (rdco_data data) as [[[|] | e] data']; simpl in Hf; eauto.
  apply IH. lia.
Qed.

Lemma cnot_loop_spec fuel data o data' :
  cnot_loop fuel data = Some (o, data') ->
  cancels (leaves_data data) (leaves_data data') /\
  (o = Returned tt -> rdco_data data' = (Returned false, data')).
Proof.
  revert data. induction fuel as [| fuel IH]; intros data H; [discriminate |].
  simpl in H. destruct (rdco_data_spec data) as [Hc Hf].
  destruct (rdco_data data) as [[[|] | e] data1] eqn:E; simpl in Hc, Hf.
  - apply IH in H. destruct H as [Hc' H']. split; [| exact H'].
    eapply cancels_trans; eauto.
  - injection H as <- <-. subst data1. split; auto.
  - injection H as <- <-. split; [exact Hc | discriminate].
Qed.

Lemma optimize_gates_total data : exists r, optimize_gates data = Some r.
Proof.
  unfold optimize_gates. apply cnot_loop_total.
  rewrite number_atomic_gates_leaves. simpl. unfold leaves_data. lia.
Qed.

(* ------------------------------------------------------------------ *)
(** ** The angle transform *)

Lemma inner_app r1 r2 v1 v2 :
  List.length r1 = List.length v1 ->
  (inner (r1 ++ r2) (v1 ++ v2) == inner r1 v1 + inner r2 v2)%Q.
Proof.
  revert v1. induction r1 as [| x r1 IH]; intros [| y v1] H;
    try discriminate; simpl.
  - ring.
  - rewrite IH by (simpl in H; lia). ring.
Qed.

(** A scaled row of the identity picks one entry of the vector. *)
Lemma inner_unit_row w i n : forall s v,
  List.length v = n ->
  (i < s ->
   (inner (map (Qmult w)
             (map (fun j => if (i =? j)%nat then 1 else 0) (seq s n))) v
    == 0)%Q) /\
  (s <= i < s + n ->
   (inner (map (Qmult w)
             (map (fun j => if (i =? j)%nat then 1 else 0) (seq s n))) v
    == w * nth (i - s) v 0)%Q).
Proof.
  induction n as [| n IH]; intros s v Hlen.
  - split; [reflexivity | lia].
  - destruct v as [| y v]; [discriminate |].
    injection Hlen as Hlen. destruct (IH (S s) v Hlen) as [IH0 IH1].
    cbn [seq map inner]. split; intros Hi.
    + rewrite IH0 by lia.
      destruct (Nat.eqb_spec i s); [lia | ring].
    + destruct (Nat.eqb_spec i s) as [-> | Hne].
      * rewrite IH0 by lia. rewrite Nat.sub_diag. simpl. ring.
      * rewrite IH1 by lia.
        replace (i - s) with (S (i - S s)) by lia. simpl. ring.
Qed.

Lemma Forall2_map_seq (R : Q -> Q -> Prop) (f : nat -> Q) d n :
  forall s l,
    List.length l = n ->
    (forall i, i < n -> R (f (s + i)) (nth i l d)) ->
    Forall2 R (map f (seq s n)) l.
Proof.
  induction n as [| n IH]; intros s [| y l] Hlen H; try discriminate.
  - constructor.
  - simpl. constructor.
    + specialize (H 0 ltac:(lia)). now rewrite Nat.add_0_r in H.
    + apply IH; [simpl in Hlen; lia |].
      intros i Hi. specialize (H (S i) ltac:(lia)).
      now rewrite Nat.add_succ_r in H.
Qed.

(** One block row of [angle_weight]: the rows [w1 * e_i ++ w2 * e_i]. *)
Lemma block_row_spec (w1 w2 : Q) (g : Q * Q -> Q) h l1 l2 :
  List.length l1 = h -> List.length l2 = h ->
  (forall a b, w1 * a + w2 * b == g (a, b))%Q ->
  Forall2 Qeq
    (map (fun row => inner row (l1 ++ l2))
       (map (fun rb => flat_map (fun x => map (Qmult x) rb) [w1; w2])
          (identity h)))
    (map g (combine l1 l2)).
Proof.
  intros H1 H2 Hg. unfold identity. rewrite !map_map.
  apply (Forall2_map_seq Qeq _ (g (0%Q, 0%Q))).
  - rewrite length_map, length_combine. lia.
  - intros i Hi. simpl. rewrite app_nil_r.
    rewrite inner_app by (rewrite !length_map, length_seq; lia).
    destruct (inner_unit_row w1 i h 0 l1 H1) as [_ E1].
    destruct (inner_unit_row w2 i h 0 l2 H2) as [_ E2].
    rewrite E1, E2 by lia. rewrite Nat.sub_0_r.
    rewrite (map_nth g), combine_nth by lia. apply Hg.
Qed.

Lemma pow2_half k : 2 ^ S k / 2 = 2 ^ k.
Proof.
  rewrite Nat.pow_succ_r', Nat.mul_comm. apply Nat.div_mul. lia.
Qed.

Lemma identity_rows h rb : In rb (identity h) -> List.length rb = h.
Proof.
  unfold identity. intros H. apply in_map_iff in H.
  destruct H as [i [<- _]]. now rewrite length_map, length_seq.
Qed.

Lemma dot_angle_weight k l :
  List.length l = 2 ^ S k ->
  dot (angle_weight (Nat.log2 (List.length l) + 1)) l = ret (transformed l)
  /\ List.length (firstn (2 ^ k) (transformed l)) = 2 ^ k
  /\ List.length (skipn (2 ^ k) (transformed l)) = 2 ^ k
  /\ Forall2 Qeq (firstn (2 ^ k) (transformed l)) (half_sums l)
  /\ Forall2 Qeq (skipn (2 ^ k) (transformed l)) (half_differences l).
Proof.
  intros Hlen.
  assert (Hh : List.length (identity (2 ^ k)) = 2 ^ k)
    by (unfold identity; now rewrite length_map, length_seq).
  assert (Hl1 : List.length (firstn (2 ^ k) l) = 2 ^ k).
  { rewrite length_firstn, Hlen, Nat.pow_succ_r'. lia. }
  assert (Hl2 : List.length (skipn (2 ^ k) l) = 2 ^ k).
  { rewrite length_skipn, Hlen, Nat.pow_succ_r'. lia. }
  unfold transformed, half_sums, half_differences, dot.
  rewrite Hlen, Nat.log2_pow2 by lia.
  replace (S k + 1 - 2) with k by lia.
  rewrite pow2_half.
  unfold angle_weight. replace (S k + 1 - 2) with k by lia.
  unfold kron. cbn [flat_map]. rewrite app_nil_r.
  set (top := map _ (identity (2 ^ k))).
  set (bot := map _ (identity (2 ^ k))).
  assert (Htop : List.length top = 2 ^ k)
    by (unfold top; now rewrite length_map).
  assert (Hbot : List.length bot = 2 ^ k)
    by (unfold bot; now rewrite length_map).
  split; [| split; [| split; [| split]]].
  - replace (forallb _ (top ++ bot)) with true; [reflexivity |].
    symmetry. apply forallb_forall. intros row Hrow.
    apply Nat.eqb_eq. apply in_app_or in Hrow.
    destruct Hrow as [Hrow | Hrow]; apply in_map_iff in Hrow;
      destruct Hrow as [rb [<- Hrb]]; apply identity_rows in Hrb;
      cbn [flat_map]; rewrite !length_app, !length_map, Hrb;
      cbn [List.length]; rewrite Nat.pow_succ_r'; lia.
  - rewrite map_app, firstn_app, length_map, Htop, Nat.sub_diag.
    simpl. rewrite app_nil_r, firstn_all2 by (rewrite length_map; lia).
    now rewrite length_map.
  - rewrite map_app, skipn_app, length_map, Htop, Nat.sub_diag.
    simpl. rewrite skipn_all2 by (rewrite length_map; lia).
    simpl. now rewrite length_map.
  - rewrite map_app, firstn_app, length_map, Htop, Nat.sub_diag.
    simpl. rewrite app_nil_r, firstn_all2 by (rewrite length_map; lia).
    assert (Hg : forall a b : Q,
               ((1 # 2) * a + (1 # 2) * b == (a + b) / 2)%Q)
      by (intros a b; field).
    pose proof (block_row_spec (1 # 2) (1 # 2)
                  (fun p => ((fst p + snd p) / 2)%Q) (2 ^ k) _ _
                  Hl1 Hl2 Hg) as H.
    rewrite firstn_skipn in H. exact H.
  - rewrite map_app, skipn_app, length_map, Htop, Nat.sub_diag.
    simpl. rewrite skipn_all2 by (rewrite length_map; lia).
    simpl.
    assert (Hg : forall a b : Q,
               ((1 # 2) * a + - (1 # 2) * b == (a - b) / 2)%Q)
      by (intros a b; field).
    pose proof (block_row_spec (1 # 2) (- (1 # 2))
                  (fun p => ((fst p - snd p) / 2)%Q) (2 ^ k) _ _
                  Hl1 Hl2 Hg) as H.
    rewrite firstn_skipn in H. exact H.
Qed.

(* ------------------------------------------------------------------ *)
(** ** The synthesizer on lists of length [2 ^ k] *)

Section InitializerFacts.
Variable num_qubits : nat.
Variable self_qargs : list qubit.
Variable bottom_gate : Q -> qubit -> Gate.
Variable bottom_qubit_index : nat.

Lemma nth_qubit_in_range n :
  n < List.length self_qargs ->
  nth_qubit_from_least_sig_qubit self_qargs n = ret (nth n self_qargs 0).
Proof.
  intros H. unfold nth_qubit_from_least_sig_qubit.
  now rewrite (nth_error_nth' self_qargs 0 H).
Qed.

Lemma reverse_sub_gate t :
  match t with
  | Composite _ => reverse t
  | Leaf _ => t
  end = reverse t.
Proof. now destruct t. Qed.

Lemma multiplex_pow2 k : forall fuel l,
  List.length l = 2 ^ k ->
  bottom_qubit_index + k < List.length self_qargs ->
  k < fuel ->
  _multiplex num_qubits self_qargs fuel bottom_gate bottom_qubit_index l
  = ret (mux_tree num_qubits self_qargs bottom_gate bottom_qubit_index k l).
Proof.
  induction k as [| k IH]; intros fuel l Hlen Hq Hfuel;
    (destruct fuel as [| fuel]; [lia |]); cbn [_multiplex].
  - rewrite nth_qubit_in_range by lia. cbn [bind ret].
    rewrite Hlen. reflexivity.
  - rewrite nth_qubit_in_range by lia. cbn [bind ret].
    assert (Hbig : 2 <= 2 ^ S k).
    { rewrite Nat.pow_succ_r'.
      pose proof (Nat.pow_nonzero 2 k ltac:(lia)). lia. }
    destruct (Nat.eqb_spec (List.length l) 1) as [E | _]; [lia |].
    destruct (Nat.eqb_spec (List.length l) 0) as [E | _]; [lia |].
    destruct (dot_angle_weight k l Hlen) as (Hdot & Hf & Hs & _).
    assert (Hlog : Nat.log2 (List.length l) = S k)
      by (rewrite Hlen; apply Nat.log2_pow2; lia).
    rewrite Hdot. rewrite Hlog.
    replace (S k + 1 - 1 + bottom_qubit_index)
      with (S k + bottom_qubit_index) by lia.
    rewrite nth_qubit_in_range by lia. cbn [bind ret].
    rewrite Hlen, pow2_half.
    rewrite (IH fuel _ Hf) by lia. cbn [bind ret].
    rewrite (IH fuel _ Hs) by lia. cbn [bind ret].
    rewrite reverse_sub_gate. reflexivity.
Qed.

(** With the fuel of [multiplex]. *)
Lemma multiplex_mux_tree k l :
  List.length l = 2 ^ k ->
  bottom_qubit_index + k < List.length self_qargs ->
  multiplex num_qubits self_qargs bottom_gate bottom_qubit_index l
  = ret (mux_tree num_qubits self_qargs bottom_gate bottom_qubit_index k l).
Proof.
  intros Hlen Hq. apply multiplex_pow2; auto.
  rewrite Hlen. pose proof (Nat.pow_gt_lin_r 2 k ltac:(lia)). lia.
Qed.
End InitializerFacts.

(* ------------------------------------------------------------------ *)
(** ** Validation *)

Lemma pow2_ge_2 n : 1 <= n -> 2 <= 2 ^ n.
Proof.
  intros H. destruct n as [| n]; [lia |].
  rewrite Nat.pow_succ_r'. pose proof (Nat.pow_nonzero 2 n ltac:(lia)). lia.
Qed.

Lemma shape_check_pow2 n :
  1 <= n ->
  ((2 ^ n =? 0)%nat = false) /\
  Nat.log2 (2 ^ n) = n /\
  ((2 ^ n =? 1)%nat || negb (2 ^ Nat.log2 (2 ^ n) =? 2 ^ n)%nat = false).
Proof.
  intros H. pose proof (pow2_ge_2 n H).
  rewrite Nat.log2_pow2 by lia. rewrite Nat.eqb_refl.
  repeat split.
  - apply Nat.eqb_neq. lia.
  - replace (2 ^ n =? 1)%nat with false; [reflexivity |].
    symmetry. apply Nat.eqb_neq. lia.
Qed.



Lemma optimized_two_rotations x y q :
  exists data, optimized [Leaf (RZGate x q); Leaf (RYGate y q)] = ret data.
Proof.
  unfold optimized, optimize_gates, rzr_data.
  cbn [rzr_loop rzr_item]. rewrite !keeps_leaf_spec.
  destruct (zero_rotationb (RZGate x q)), (zero_rotationb (RYGate y q));
    cbn; eauto.
Qed.

(** A one-qubit request that passes the three checks is constructed. *)
Lemma init_one_qubit np inverse a b q :
  isclose (sum (map absolute_squared [a; b])) 1 _EPS = true ->
  exists g, InitializeGate__init__ np inverse [a; b] [q] = ret g.
Proof.
  intros Hclose. unfold InitializeGate__init__.
  cbn [List.length Nat.eqb Nat.log2 orb negb].
  change (Nat.log2 2) with 1. cbn [Nat.pow Nat.mul Nat.add Nat.eqb negb orb].
  rewrite Hclose. cbn [negb].
  unfold gates_to_uncompute. cbn [uncompute_loop _rotations_to_disentangle].
  destruct (_bloch_angles np a b) as [[remains theta] phi].
  unfold multiplex. cbn [List.length _multiplex].
  unfold nth_qubit_from_least_sig_qubit. cbn [nth_error bind ret Nat.eqb hd].
  unfold bind at 1. unfold ret at 1. cbn [fst snd app].
  destruct (optimized_two_rotations (- phi) (- theta) q) as [data ->].
  cbn [bind ret]. eauto.
Qed.

(* ================================================================== *)
(** * Part IV: the claims *)

(** ** Worked examples *)

(** Cancellation across composite boundaries: in
    [[a; [x; b]]; [[b; a]; a]] the inner pass cancels [a a] at the end
    of the second composite, then the outer loop cancels [b b] across the
    boundary, each gate deleted from the nested list that holds it. *)
Example rdco_across_boundaries :
  let a := Leaf (CnotGate 0 1) in
  let b := Leaf (CnotGate 2 1) in
  let x := Leaf (XGate 1) in
  rdco_data [Composite [a; Composite [x; b]];
             Composite [Composite [b; a]; a]]
  = (Returned true,
     [Composite [a; Composite [x]]; Composite [Composite []]]).
Proof. reflexivity. Qed.

(** Only rotations named rz, ry, rx go, and only below [_EPS]. *)
Example rzr_data_example :
  rzr_data [Leaf (RYGate 0 0);
            Composite [Leaf (RZGate (1 # 100000000000) 1)];
            Leaf (RXGate (1 # 10000000000) 1);
            Leaf (U3Gate 0 0 0 1)]
  = (true, [Leaf (RXGate (1 # 10000000000) 1); Leaf (U3Gate 0 0 0 1)]).
Proof. reflexivity. Qed.

(** Four angles on three qubits: [1; 3; 5; 9] becomes [3; 6; -2; -3]. *)
Example multiplex_example :
  multiplex 3 [0; 1; 2] RZGate 0 [1%Q; 3%Q; 5%Q; 9%Q]
  = ret (Composite
           [Composite [Leaf (RZGate (4608 # 1024) 0); Leaf (CnotGate 1 0);
                       Leaf (RZGate (-1536 # 1024) 0)];
            Leaf (CnotGate 2 0);
            Composite [Leaf (RZGate (512 # 1024) 0); Leaf (CnotGate 1 0);
                       Leaf (RZGate (-2560 # 1024) 0)];
            Leaf (CnotGate 2 0)]).
Proof. reflexivity. Qed.

(** A list whose length is not a power of two, and a control qubit out
    of range. *)
Example multiplex_errors :
  multiplex 3 [0; 1; 2] RZGate 0 [1%Q; 3%Q; 5%Q] = raise ValueError /\
  multiplex 1 [0] RZGate 0 [1%Q; 3%Q] = raise IndexError.
Proof. split; reflexivity. Qed.

(** ** The optimizer *)

(** C6.  Zero-rotation elimination deletes exactly the rotation leaves
    (about Z, Y or X) whose angle is below [_EPS] in magnitude: the leaf
    sequence after the pass is the one before it with those leaves filtered
    out; the leaves named "cx" are the same before and after; and a child
    of [self.data] is dropped exactly when it is such a rotation or a
    composite left without children by the recursive pass, any other child
    being kept (a composite with the result of its own pass). *)
Theorem remove_zero_rotations_exact (data : list tree) :
  let data' := snd (rzr_data data) in
  leaves_data data'
  = filter (fun g => negb (zero_rotationb g)) (leaves_data data)
  /\ (forall g, zero_rotationb g = true <-> zero_rotation g)
  /\ filter (fun g => name g =? "cx") (leaves_data data')
     = filter (fun g => name g =? "cx") (leaves_data data)
  /\ data' = flat_map rzr_child data
  /\ (forall d, rzr_child (Composite d) = [] <-> snd (rzr_data d) = [])
  /\ (forall d, snd (rzr_data d) <> [] ->
                rzr_child (Composite d) = [Composite (snd (rzr_data d))]).
Proof.
  cbv zeta. split; [| split; [| split; [| split; [| split]]]].
  - apply rzr_data_leaves.
  - apply zero_rotationb_spec.
  - rewrite rzr_data_leaves.
    induction (leaves_data data) as [| g l IH]; [reflexivity |].
    simpl. destruct (kept g) eqn:K; simpl; rewrite IH; [reflexivity |].
    destruct g; simpl in *; try discriminate; reflexivity.
  - apply rzr_data_flat_map.
  - intros d. simpl. destruct (snd (rzr_data d)); split; congruence.
  - intros d H. simpl. destruct (snd (rzr_data d)); congruence.
Qed.

(** C9.  A pass of double-CNOT cancellation, whether it returns or
    raises, only deletes leaves named "cx", two neighbours with the same
    qubit arguments at a time; all other leaves (the rotations among them)
    are afterwards what they were, in the same order. *)
Theorem remove_double_cnots_once_frame (data : list tree) :
  cancels (leaves_data data) (leaves_data (snd (rdco_data data))) /\
  filter not_cx (leaves_data (snd (rdco_data data)))
  = filter not_cx (leaves_data data).
Proof.
  destruct (rdco_data_spec data) as [Hc _].
  split; [exact Hc | now apply cancels_not_cx].
Qed.

(** C8.  On the flat list [cx(0,1); cx(2,1); cx(2,1)] the pass deletes
    the pair at indices 1 and 2 and then, at index 0, reads
    [self.data[i + 1]] on a list of length one: it raises [IndexError],
    and so does [optimize_gates]. *)
Theorem remove_double_cnots_once_index_error :
  let data := [Leaf (CnotGate 0 1); Leaf (CnotGate 2 1); Leaf (CnotGate 2 1)] in
  rdco_data data = (Raised IndexError, [Leaf (CnotGate 0 1)]) /\
  optimize_gates data = Some (Raised IndexError, [Leaf (CnotGate 0 1)]).
Proof. split; reflexivity. Qed.

(** C5, as stated, fails: the first run leaves the childless composite
    between the two [cx(2,1)]; the second run drops it and cancels them. *)
Lemma optimize_gates_twice_differs :
  let data := [Leaf (CnotGate 2 1); Composite [Leaf (CnotGate 0 1)];
               Leaf (CnotGate 0 1); Leaf (CnotGate 2 1)] in
  let once := [Leaf (CnotGate 2 1); Composite []; Leaf (CnotGate 2 1)] in
  optimize_gates data = Some (Returned tt, once) /\
  optimize_gates once = Some (Returned tt, []) /\
  once <> [] /\ leaves_data once <> leaves_data [].
Proof. repeat split; try reflexivity; discriminate. Qed.

(** C5, amended.  When a run of the optimizer completes and its result
    has no childless composite, a second run returns that same tree. *)
Theorem optimize_gates_idempotent (data data' : list tree) :
  optimize_gates data = Some (Returned tt, data') ->
  forallb no_empty_composite data' = true ->
  optimize_gates data' = Some (Returned tt, data').
Proof.
  unfold optimize_gates. intros H Hne.
  apply cnot_loop_spec in H. destruct H as [Hc Hfix].
  specialize (Hfix eq_refl).
  assert (Hk : Forall (fun g => kept g = true) (leaves_data data')).
  { eapply cancels_Forall; [exact Hc |].
    rewrite rzr_data_leaves. apply Forall_forall.
    intros g Hg. now apply filter_In in Hg. }
  rewrite (rzr_data_fixed data' Hne Hk). simpl. now rewrite Hfix.
Qed.

Lemma optimize_gates_idempotent_witness :
  let data := [Leaf (RYGate 0 0); Leaf (CnotGate 0 1); Leaf (CnotGate 0 1);
               Leaf (CnotGate 2 1); Composite [Leaf (RZGate 1 0)]] in
  let data' := [Leaf (CnotGate 2 1); Composite [Leaf (RZGate 1 0)]] in
  optimize_gates data = Some (Returned tt, data') /\
  optimize_gates data' = Some (Returned tt, data').
Proof.
  split; [reflexivity |].
  apply (optimize_gates_idempotent
           [Leaf (RYGate 0 0); Leaf (CnotGate 0 1); Leaf (CnotGate 0 1);
            Leaf (CnotGate 2 1); Composite [Leaf (RZGate 1 0)]]);
    reflexivity.
Defined.

(* ================================================================== *)
(** ** Multiplexed-rotation synthesizer: the claims *)

(** C3, as stated, fails: for the list [[1; 3]] (k = 1) with bottom
    index 0 the CNOT is controlled by the qubit at offset k + 0 = 1, not
    by the one at offset k - 1 + 0 = 0 (which is the target itself). *)
Lemma multiplex_control_not_at_k_minus_1 :
  let self_qargs := [0; 1] in
  let k := 1 in
  let bottom := 0 in
  ~ exists low high tail,
      multiplex 2 self_qargs RZGate bottom [1%Q; 3%Q]
      = ret (Composite
               (low
                :: Leaf (CnotGate (nth (k - 1 + bottom) self_qargs 0)
                                  (nth bottom self_qargs 0))
                :: high :: tail)).
Proof.
  cbv zeta. intros (low & high & tail & H).
  vm_compute in H. discriminate H.
Qed.

(** C3, amended.  For a list of length [2 ^ k] and qubit offsets in
    range: when k = 0 the result is the single rotation leaf with the
    single angle on the target qubit; when k >= 1 it is a composite whose
    children are, in order, the result for the first half of the
    transformed list, a CNOT whose control is the qubit at offset
    k + bottom index and whose target is the bottom qubit, the
    order-reversed result for the second half, and the trailing CNOT when
    the total qubit count is k + 1 + bottom index.  The transformed list
    is [angle_weight.dot(list_of_angles)]; its first half is, entry by
    entry, half the sum of the two halves of the input, its second half
    half their difference. *)
Theorem multiplex_structure (num_qubits : nat) (self_qargs : list qubit)
  (bottom_gate : Q -> qubit -> Gate) (bottom : nat) (k : nat) (l : list Q) :
  List.length l = 2 ^ k ->
  bottom + k < List.length self_qargs ->
  match k with
  | O =>
      exists angle target,
        l = [angle] /\
        nth_error self_qargs bottom = Some target /\
        multiplex num_qubits self_qargs bottom_gate bottom l
        = ret (Leaf (bottom_gate angle target))
  | S k' =>
      exists low high control target,
        nth_error self_qargs (k + bottom) = Some control /\
        nth_error self_qargs bottom = Some target /\
        dot (angle_weight (Nat.log2 (List.length l) + 1)) l
        = ret (transformed l) /\
        Forall2 Qeq (firstn (2 ^ k') (transformed l)) (half_sums l) /\
        Forall2 Qeq (skipn (2 ^ k') (transformed l)) (half_differences l) /\
        multiplex num_qubits self_qargs bottom_gate bottom
          (firstn (2 ^ k') (transformed l)) = ret low /\
        multiplex num_qubits self_qargs bottom_gate bottom
          (skipn (2 ^ k') (transformed l)) = ret high /\
        multiplex num_qubits self_qargs bottom_gate bottom l
        = ret (Composite
                 ([low; Leaf (CnotGate control target); reverse high]
                  ++ (if (num_qubits =? k + 1 + bottom)%nat
                      then [Leaf (CnotGate control target)] else [])))
  end.
Proof.
  intros Hlen Hq.
  pose proof (multiplex_mux_tree num_qubits self_qargs bottom_gate bottom
                k l Hlen Hq) as Hmain.
  destruct k as [| k'].
  - destruct l as [| a [| ? ?]]; try discriminate.
    exists a, (nth bottom self_qargs 0). repeat split.
    + apply nth_error_nth'. lia.
    + exact Hmain.
  - destruct (dot_angle_weight k' l Hlen) as (Hdot & Hf & Hs & Hsum & Hdiff).
    exists (mux_tree num_qubits self_qargs bottom_gate bottom k'
              (firstn (2 ^ k') (transformed l))),
           (mux_tree num_qubits self_qargs bottom_gate bottom k'
              (skipn (2 ^ k') (transformed l))),
           (nth (S k' + bottom) self_qargs 0),
           (nth bottom self_qargs 0).
    split; [apply nth_error_nth'; lia |].
    split; [apply nth_error_nth'; lia |].
    split; [exact Hdot |].
    split; [exact Hsum |].
    split; [exact Hdiff |].
    split; [apply multiplex_mux_tree; [exact Hf | lia] |].
    split; [apply multiplex_mux_tree; [exact Hs | lia] |].
    exact Hmain.
Qed.

Lemma multiplex_structure_witness :
  exists low high,
    multiplex 2 [0; 1] RYGate 0 (firstn 1 (transformed [1%Q; 3%Q]))
    = ret low /\
    multiplex 2 [0; 1] RYGate 0 (skipn 1 (transformed [1%Q; 3%Q]))
    = ret high /\
    multiplex 2 [0; 1] RYGate 0 [1%Q; 3%Q]
    = ret (Composite [low; Leaf (CnotGate 1 0); reverse high;
                      Leaf (CnotGate 1 0)]).
Proof.
  destruct (multiplex_structure 2 [0; 1] RYGate 0 1 [1%Q; 3%Q]
              eq_refl ltac:(simpl; lia))
    as (low & high & control & target & Hc & Ht & _ & _ & _ & Hl & Hh & H).
  injection Hc as <-. injection Ht as <-.
  exists low, high. auto.
Defined.

(** C2, as stated, fails: for the list [[1; 3]] (k = 1) with bottom
    index 0 and two qubits the trailing CNOT is appended although the
    total qubit count, 2, is not k + bottom index = 1; and with one qubit,
    where it is, the call raises [IndexError] on the control qubit. *)
Lemma multiplex_trailing_cnot_not_at_k_plus_bottom :
  let k := 1 in
  let bottom := 0 in
  (exists low high,
      multiplex 2 [0; 1] RZGate bottom [1%Q; 3%Q]
      = ret (Composite [low; Leaf (CnotGate 1 0); high;
                        Leaf (CnotGate 1 0)])) /\
  2 <> k + bottom /\
  multiplex 1 [0] RZGate bottom [1%Q; 3%Q] = raise IndexError /\
  1 = k + bottom.
Proof.
  cbv zeta. split; [| split; [lia | split; reflexivity]].
  eexists. eexists. vm_compute. reflexivity.
Qed.

(** C2, amended.  In the recursive case on a list of length [2 ^ k]
    (k >= 1), with the qubit offsets in range, the composite ends with the
    trailing CNOT(control, target) if and only if the total qubit count
    equals k + 1 + bottom index (the local qubit count plus the bottom
    index); otherwise it has the three children before it only. *)
Theorem multiplex_trailing_cnot (num_qubits : nat) (self_qargs : list qubit)
  (bottom_gate : Q -> qubit -> Gate) (bottom : nat) (k : nat) (l : list Q) :
  1 <= k ->
  List.length l = 2 ^ k ->
  bottom + k < List.length self_qargs ->
  exists low high control target,
    nth_error self_qargs (k + bottom) = Some control /\
    nth_error self_qargs bottom = Some target /\
    ((num_qubits = k + 1 + bottom /\
      multiplex num_qubits self_qargs bottom_gate bottom l
      = ret (Composite [low; Leaf (CnotGate control target); high;
                        Leaf (CnotGate control target)]))
     \/
     (num_qubits <> k + 1 + bottom /\
      multiplex num_qubits self_qargs bottom_gate bottom l
      = ret (Composite [low; Leaf (CnotGate control target); high]))).
Proof.
  intros Hk Hlen Hq.
  pose proof (multiplex_mux_tree num_qubits self_qargs bottom_gate bottom
                k l Hlen Hq) as Hmain.
  destruct k as [| k']; [lia |]. cbn [mux_tree] in Hmain.
  do 2 eexists.
  exists (nth (S k' + bottom) self_qargs 0), (nth bottom self_qargs 0).
  split; [apply nth_error_nth'; lia |].
  split; [apply nth_error_nth'; lia |].
  destruct (Nat.eqb_spec num_qubits (S k' + 1 + bottom)) as [E | E];
    [left | right]; (split; [exact E | exact Hmain]).
Qed.

Lemma multiplex_trailing_cnot_witness :
  exists low high,
    multiplex 3 [0; 1; 2] RZGate 0 [1%Q; 3%Q]
    = ret (Composite [low; Leaf (CnotGate 1 0); high]).
Proof.
  destruct (multiplex_trailing_cnot 3 [0; 1; 2] RZGate 0 1 [1%Q; 3%Q]
              ltac:(lia) eq_refl ltac:(simpl; lia))
    as (low & high & control & target & Hc & Ht & [[E _] | [_ H]]).
  - discriminate E.
  - injection Hc as <-. injection Ht as <-. exists low, high. exact H.
Defined.

(* ================================================================== *)
(** ** Constructors and angle extraction: the claims *)

(** C7.  The normalization check lets through a vector that is not
    normalized within [_EPS].  For the vector (1.0000000002, 0) on one
    qubit the squared magnitudes sum to 1 + 4.00000000004e-10, further than
    [_EPS] from 1.  [math.isclose] is called with [abs_tol=_EPS] and its
    default [rel_tol] of 1e-9 left on, and the sum is within that relative
    tolerance, so it answers [True]: [InitializeGate.__init__] raises no
    "Sum of amplitudes-squared does not equal one." and returns an object,
    whatever the numpy kernels are. *)
Theorem InitializeGate_normalization_slip :
  let params := [Complex (10000000002 # 10000000000) 0; Complex 0 0] in
  let s := sum (map absolute_squared params) in
  (_EPS < Qabs (s - 1))%Q /\
  (Qabs (s - 1) <= rel_tol_default * 1)%Q /\
  isclose s 1 _EPS = true /\
  (forall np inverse,
      exists g, InitializeGate__init__ np inverse params [0] = ret g).
Proof.
  cbv zeta. split; [| split; [| split]].
  - reflexivity.
  - vm_compute. discriminate.
  - reflexivity.
  - intros np inverse. now apply init_one_qubit.
Qed.

(** C10.  [GlobalPhaseGate.__init__] with an empty qubit list raises
    "Need at least one qubit." whatever the parameters are, so before the
    parameter count and the magnitude are looked at, and no object with
    gates comes out; with a qubit, zero or several parameters raise the
    parameter-count error, and one parameter is checked for unit
    magnitude. *)
Theorem GlobalPhaseGate_needs_a_qubit (np : Numpy) :
  (forall params,
      GlobalPhaseGate__init__ np params []
      = raise (QiskitError "Need at least one qubit."))
  /\ (forall q qs,
         GlobalPhaseGate__init__ np [] (q :: qs)
         = raise (QiskitError
                    "Global Phase takes a list of one and only one parameter."))
  /\ (forall p1 p2 ps q qs,
         GlobalPhaseGate__init__ np (p1 :: p2 :: ps) (q :: qs)
         = raise (QiskitError
                    "Global Phase takes a list of one and only one parameter."))
  /\ (forall p q qs,
         GlobalPhaseGate__init__ np [p] (q :: qs)
         = if isclose (np_absolute np p) 1 _EPS
           then ret {| phase_params := [p];
                       phase_qargs := q :: qs;
                       phase_data :=
                         [Leaf (U3Gate (np_pi np) (np_angle np p)
                                  (np_pi np + np_angle np p)%Q q);
                          Leaf (XGate q)] |}
           else raise (QiskitError "Phase not of unit length")).
Proof.
  repeat split; intros; try reflexivity.
  simpl. now destruct (isclose (np_absolute np p) 1 _EPS).
Qed.

(** C4.  [_bloch_angles] on a pair (a, b), with
    r = sqrt(|a|^2 + |b|^2): when r < [_EPS] it returns remaining = 0,
    theta = 0 and phi = 0; otherwise theta = 2 arccos(|a| / r),
    phi = arg(b) - arg(a) and remaining = r e^{i (arg(a) + arg(b)) / 2},
    real part and imaginary part.  No branch raises: the one division,
    by r, is made only where r is at least [_EPS], hence not zero. *)
Theorem bloch_angles_cases (np : Numpy) (a b : complex) :
  let r := np_sqrt np (np_absolute np a ^ 2 + np_absolute np b ^ 2)%Q in
  let e := np_exp_j np ((np_angle np a + np_angle np b) / 2) in
  let remaining := fst (fst (_bloch_angles np a b)) in
  let theta := snd (fst (_bloch_angles np a b)) in
  let phi := snd (_bloch_angles np a b) in
  if Qlt_le_dec r _EPS then
    (re remaining == 0)%Q /\ (im remaining == 0)%Q /\
    theta = 0%Q /\ phi = 0%Q
  else
    ~ (r == 0)%Q /\
    theta = (2 * np_arccos np (np_absolute np a / r))%Q /\
    phi = (np_angle np b - np_angle np a)%Q /\
    (re remaining == r * re e)%Q /\
    (im remaining == r * im e)%Q.
Proof.
  cbv zeta. unfold _bloch_angles.
  destruct (Qlt_le_dec _ _EPS) as [H | H]; cbn [fst snd].
  - repeat split; cbn [scale re im]; ring.
  - split; [| repeat split; cbn [scale re im]; reflexivity].
    intros E. rewrite E in H. revert H. compute. now intros H.
Qed.

(* ================================================================== *)
(** * Part V: further properties of the code *)

(** ** Order reverser *)

Lemma leaves_data_rev_map_reverse data :
  Forall (fun t => leaves (reverse t) = rev (leaves t)) data ->
  leaves_data (rev (map reverse data)) = rev (leaves_data data).
Proof.
  induction 1 as [| x l Hx _ IH]; [reflexivity |].
  cbn [map rev]. rewrite leaves_data_app, IH.
  rewrite (leaves_data_cons x l), rev_app_distr.
  f_equal. unfold leaves_data. cbn [flat_map].
  now rewrite app_nil_r, Hx.
Qed.

Lemma leaves_reverse t : leaves (reverse t) = rev (leaves t).
Proof.
  induction t as [g | data IH] using tree_ind'.
  - reflexivity.
  - exact (leaves_data_rev_map_reverse data IH).
Qed.

(** X1.  [reverse] changes no gate: the leaf sequence of the reversed
    tree is the leaf sequence of the tree read backwards, so the number of
    leaf gates is the same and a gate is in one tree exactly when it is in
    the other. *)
Theorem reverse_leaves (t : tree) :
  leaves (reverse t) = rev (leaves t) /\
  number_atomic_gates (reverse t) = number_atomic_gates t /\
  (forall g, In g (leaves (reverse t)) <-> In g (leaves t)).
Proof.
  split; [apply leaves_reverse |]. split.
  - now rewrite !number_atomic_gates_leaves, leaves_reverse, length_rev.
  - intros g. rewrite leaves_reverse. symmetry. apply in_rev.
Qed.

(** X2.  Reversing twice gives the tree back. *)
Theorem reverse_involutive (t : tree) : reverse (reverse t) = t.
Proof.
  induction t as [g | data IH] using tree_ind'; [reflexivity |].
  cbn [reverse]. f_equal.
  rewrite map_rev, rev_involutive, map_map.
  induction IH as [| x l Hx _ IHl]; [reflexivity |].
  cbn [map]. now rewrite Hx, IHl.
Qed.

Lemma last_host_loop_snoc (rec : tree -> option (list tree)) data pre x :
  last_host_loop rec data (pre ++ [x])
  = match x with
    | Composite _ => rec x
    | Leaf _ => Some data
    end.
Proof.
  induction pre as [| y pre IH]; [reflexivity |].
  cbn [app last_host_loop]. cbn [app last_host_loop] in IH.
  destruct (pre ++ [x]) as [| z l] eqn:E.
  - now destruct pre.
  - exact IH.
Qed.

Lemma left_gate_snoc pre x :
  left_gate (Composite (pre ++ [x])) = left_gate x.
Proof.
  unfold left_gate at 1. cbn [last_atomic_gate_host].
  rewrite last_host_loop_snoc. destruct x as [g | c]; [| reflexivity].
  rewrite length_app, nth_error_app2 by (simpl; lia).
  replace (List.length pre + List.length [Leaf g] - 1 - List.length pre)
    with 0 by (simpl; lia).
  reflexivity.
Qed.

Lemma right_gate_cons x l :
  right_gate (Composite (x :: l)) = right_gate x.
Proof. now destruct x. Qed.

Lemma right_gate_reverse t : right_gate (reverse t) = left_gate t.
Proof.
  induction t as [g | data IH] using tree_ind'; [reflexivity |].
  destruct (rev data) as [| x l] eqn:E.
  - apply (f_equal (@rev tree)) in E. rewrite rev_involutive in E.
    now subst data.
  - apply (f_equal (@rev tree)) in E. rewrite rev_involutive in E.
    cbn [rev] in E. subst data.
    apply Forall_app in IH. destruct IH as [_ IH].
    inversion IH as [| ? ? Hx _]; subst.
    rewrite left_gate_snoc. cbn [reverse].
    rewrite map_app, rev_app_distr. cbn [map rev app].
    rewrite right_gate_cons. exact Hx.
Qed.

(** X3.  [reverse] swaps the two edges of a node: the gate the
    cancellation pass sees on the left edge of the reversed node is the
    one it sees on the right edge of the node, and conversely. *)
Theorem reverse_swaps_edges (t : tree) :
  right_gate (reverse t) = left_gate t /\
  left_gate (reverse t) = right_gate t.
Proof.
  split; [apply right_gate_reverse |].
  induction t as [g | data IH] using tree_ind'; [reflexivity |].
  destruct data as [| x l]; [reflexivity |].
  inversion IH as [| ? ? Hx _]; subst.
  cbn [reverse map rev]. now rewrite left_gate_snoc, right_gate_cons.
Qed.

(** ** Small numbers *)

Lemma _EPS_pos : (0 < _EPS)%Q.
Proof. reflexivity. Qed.

(** X4.  [chop_num] is idempotent, moves a number by less than [_EPS],
    and returns either 0 or a number of magnitude at least [_EPS]. *)
Theorem chop_num_properties (numb : Q) :
  chop_num (chop_num numb) = chop_num numb /\
  (Qabs (chop_num numb - numb) < _EPS)%Q /\
  (chop_num numb = 0%Q \/ (_EPS <= Qabs (chop_num numb))%Q).
Proof.
  unfold chop_num at 2 3 4 5 6.
  destruct (Qlt_le_dec (Qabs numb) _EPS) as [H | H].
  - split; [reflexivity | split; [| now left]].
    setoid_replace (0 - numb)%Q with (- numb)%Q by ring.
    now rewrite Qabs_opp.
  - split; [| split; [| now right]].
    + unfold chop_num.
      destruct (Qlt_le_dec (Qabs numb) _EPS) as [H' | _]; [| reflexivity].
      exfalso. apply (Qlt_irrefl _EPS). eapply Qle_lt_trans; eauto.
    + setoid_replace (numb - numb)%Q with 0%Q by ring. reflexivity.
Qed.

(** ** Zero-rotation elimination *)

Lemma forallb_flat_map {A B : Type} (p : B -> bool) (f : A -> list B) l :
  Forall (fun x => forallb p (f x) = true) l ->
  forallb p (flat_map f l) = true.
Proof.
  induction 1 as [| x l Hx _ IH]; [reflexivity |].
  cbn [flat_map]. now rewrite forallb_app, Hx, IH.
Qed.

Lemma rzr_child_no_empty t :
  forallb no_empty_composite (rzr_child t) = true.
Proof.
  induction t as [g | data IH] using tree_ind'.
  - simpl. now destruct (zero_rotationb g).
  - apply forallb_flat_map in IH. rewrite <- rzr_data_flat_map in IH.
    cbn [rzr_child]. destruct (snd (rzr_data data)) as [| x l];
      [reflexivity |].
    cbn [forallb no_empty_composite] in *. now rewrite IH.
Qed.

Lemma rzr_data_kept data :
  Forall (fun g => kept g = true) (leaves_data (snd (rzr_data data))).
Proof.
  rewrite rzr_data_leaves. apply Forall_forall. intros g Hg.
  now apply filter_In in Hg.
Qed.

Lemma kept_not_zero g : kept g = true -> ~ zero_rotation g.
Proof.
  unfold kept. intros Hk Hz. apply zero_rotationb_spec in Hz.
  now rewrite Hz in Hk.
Qed.

(** X5.  After [remove_zero_rotations] no composite below [self] is
    childless, at any depth, and no rotation leaf named rz, ry or rx has
    an angle below [_EPS] in magnitude. *)
Theorem remove_zero_rotations_postcondition (data : list tree) :
  forallb no_empty_composite (snd (rzr_data data)) = true /\
  Forall (fun g => ~ zero_rotation g) (leaves_data (snd (rzr_data data))).
Proof.
  split.
  - rewrite rzr_data_flat_map. apply forallb_flat_map, Forall_forall.
    intros x _. apply rzr_child_no_empty.
  - eapply Forall_impl; [| apply rzr_data_kept].
    intros g. apply kept_not_zero.
Qed.

(** X6.  [remove_zero_rotations] is idempotent: run on its own result
    it returns [False] and changes nothing. *)
Theorem remove_zero_rotations_idempotent (data : list tree) :
  rzr_data (snd (rzr_data data)) = (false, snd (rzr_data data)).
Proof.
  apply rzr_data_fixed; [| apply rzr_data_kept].
  rewrite rzr_data_flat_map. apply forallb_flat_map, Forall_forall.
  intros x _. apply rzr_child_no_empty.
Qed.

Lemma rzr_flag_tree t :
  fst (rzr_item remove_zero_rotations t) = existsb zero_rotationb (leaves t).
Proof.
  induction t as [g | data IH] using tree_ind'.
  - cbn [rzr_item leaves existsb]. rewrite keeps_leaf_spec, orb_false_r.
    now destruct (zero_rotationb g).
  - cbn [rzr_item remove_zero_rotations leaves].
    destruct (rzr_loop remove_zero_rotations data) as [b d'] eqn:E.
    cbn [fst snd].
    assert (Hb : b = existsb zero_rotationb (flat_map leaves data)).
    { revert b d' E. induction IH as [| x l Hx _ IHl]; intros b d' E.
      - now injection E as <- _.
      - cbn [rzr_loop] in E. cbn [flat_map]. rewrite existsb_app, <- Hx.
        destruct (rzr_item remove_zero_rotations x) as [b1 k1].
        destruct (rzr_loop remove_zero_rotations l) as [b2 d2].
        injection E as <- _. cbn [fst]. f_equal. now apply (IHl b2 d2). }
    now rewrite Hb.
Qed.

Lemma rzr_flag_data data :
  fst (rzr_data data) = existsb zero_rotationb (leaves_data data).
Proof.
  change (fst (rzr_data data))
    with (fst (remove_zero_rotations (Composite data))).
  change (leaves_data data) with (leaves (Composite data)).
  rewrite <- rzr_flag_tree. cbn [rzr_item].
  now destruct (remove_zero_rotations (Composite data)).
Qed.

(** X7.  The flag [remove_zero_rotations] returns is [True] exactly
    when some leaf below [self] is a zero rotation, that is when a leaf
    was deleted; dropping a childless composite does not set it. *)
Theorem remove_zero_rotations_flag (data : list tree) :
  fst (rzr_data data) = existsb zero_rotationb (leaves_data data) /\
  (fst (rzr_data data) = false <->
   leaves_data (snd (rzr_data data)) = leaves_data data).
Proof.
  split; [apply rzr_flag_data |].
  rewrite rzr_flag_data, rzr_data_leaves.
  induction (leaves_data data) as [| g l IH]; [now split |].
  cbn [existsb filter]. unfold kept at 1.
  destruct (zero_rotationb g); cbn [negb orb].
  - split; [discriminate |]. intros E. exfalso.
    assert (Hlen : List.length (filter kept l) <= List.length l)
      by apply filter_length_le.
    rewrite E in Hlen. simpl in Hlen. lia.
  - rewrite IH. split; [now intros -> | now intros [= ->]].
Qed.

(** ** Double-CNOT cancellation *)

Lemma cancels_even l l' :
  cancels l l' -> exists n, List.length l = List.length l' + 2 * n.
Proof.
  induction 1 as [l | l1 l2 l3 Hs _ [n IH]].
  - exists 0. lia.
  - apply cancel_step_length in Hs. exists (S n). lia.
Qed.

(** X8.  What the flag of [remove_double_cnots_once] means.  When the
    pass returns [True] it has deleted a positive, even number of leaf
    gates; when it returns [False] it has left [self.data] as it was. *)
Theorem remove_double_cnots_once_flag (data : list tree) :
  match rdco_data data with
  | (Returned true, data') =>
      exists n, 1 <= n /\
        number_atomic_gates (Composite data)
        = number_atomic_gates (Composite data') + 2 * n
  | (Returned false, data') => data' = data
  | (Raised _, data') =>
      exists n,
        number_atomic_gates (Composite data)
        = number_atomic_gates (Composite data') + 2 * n
  end.
Proof.
  destruct (rdco_data_spec data) as [Hc Hf].
  destruct (rdco_data data) as [[[|] | e] data']; cbn [fst snd] in *;
    rewrite ?number_atomic_gates_leaves;
    change (leaves (Composite data)) with (leaves_data data);
    change (leaves (Composite data')) with (leaves_data data').
  - destruct (cancels_even _ _ Hc) as [n Hn]. exists n. split; lia.
  - exact Hf.
  - now apply cancels_even.
Qed.

(* ------------------------------------------------------------------ *)
(** *** The only exception *)

Lemma cnot_step_raises x sub removed rest :
  raises_only_IndexError sub ->
  raises_only_IndexError (cnot_step x sub removed rest).
Proof.
  intros Hsub. unfold cnot_step.
  destruct (match x with
            | Composite _ => if removed then (Returned true, x) else sub
            | Leaf _ => (Returned removed, x)
            end) as [o x1] eqn:E.
  assert (Ho : match o with Raised e => e = IndexError | _ => True end).
  { destruct x; [now injection E as <- _ |].
    destruct removed; [now injection E as <- _ |].
    subst sub. exact Hsub. }
  destruct o as [removed1 | e]; [| exact Ho].
  destruct (left_gate x1); [| exact I].
  destruct (name g =? "cx"); [| exact I].
  destruct rest as [| y rest']; [reflexivity |].
  destruct (right_gate y); [| exact I].
  now destruct (_ && _).
Qed.

Lemma cnot_scan_raises (rec : tree -> outcome bool * tree) l :
  Forall (fun x => raises_only_IndexError (rec x)) l ->
  raises_only_IndexError (cnot_scan rec l).
Proof.
  induction 1 as [| x rest Hx _ IH]; [exact I |].
  cbn [cnot_scan]. destruct rest as [| x' rest'].
  - destruct x; [exact I |].
    unfold raises_only_IndexError in *. now destruct (rec _).
  - destruct (cnot_scan rec (x' :: rest')) as [[removed | e] rest1].
    + now apply cnot_step_raises.
    + exact IH.
Qed.

Lemma rdco_body_raises (rec : tree -> outcome bool * tree) data :
  Forall (fun x => raises_only_IndexError (rec x)) data ->
  raises_only_IndexError (rdco_body rec data).
Proof.
  intros H. unfold rdco_body.
  destruct data as [| x l]; [exact I |].
  destruct x as [g | d]; [now apply cnot_scan_raises |].
  destruct l as [| x' l']; [| now apply cnot_scan_raises].
  inversion H as [| ? ? Hx _]; subst.
  unfold raises_only_IndexError in *. now destruct (rec _).
Qed.

Lemma remove_double_cnots_once_raises t :
  raises_only_IndexError (remove_double_cnots_once t).
Proof.
  induction t as [g | data IH] using tree_ind'; [exact I |].
  apply rdco_body_raises in IH. exact IH.
Qed.

Lemma rdco_data_raises data : raises_only_IndexError (rdco_data data).
Proof.
  apply rdco_body_raises, Forall_forall. intros x _.
  apply remove_double_cnots_once_raises.
Qed.

(** X9.  The only exception [remove_double_cnots_once] ever raises is
    [IndexError]. *)
Theorem remove_double_cnots_once_only_IndexError (data : list tree) :
  (exists b, fst (rdco_data data) = Returned b) \/
  fst (rdco_data data) = Raised IndexError.
Proof.
  pose proof (rdco_data_raises data) as H.
  unfold raises_only_IndexError in H.
  destruct (fst (rdco_data data)) as [b | e]; [left; eauto | right].
  now subst.
Qed.

(* ------------------------------------------------------------------ *)
(** *** Trees without CNOTs *)

Lemma left_gate_In x g : left_gate x = Some g -> In g (leaves x).
Proof.
  intros H. apply left_gate_leaves in H. rewrite H.
  apply in_or_app. right. now left.
Qed.

Lemma right_gate_In y g : right_gate y = Some g -> In g (leaves y).
Proof. intros H. apply right_gate_leaves in H. rewrite H. now left. Qed.

Lemma cnot_step_no_cx x rest :
  Forall (fun g => name g <> "cx") (leaves x) ->
  cnot_step x (Returned false, x) false rest = (Returned false, x :: rest).
Proof.
  intros H. unfold cnot_step.
  replace (match x with
           | Composite _ => if false then (Returned true, x)
                            else (Returned false, x)
           | Leaf _ => (Returned false, x)
           end) with (@Returned bool false, x) by now destruct x.
  destruct (left_gate x) as [gl |] eqn:Hgl; [| reflexivity].
  apply left_gate_In in Hgl.
  rewrite Forall_forall in H. specialize (H gl Hgl).
  apply String.eqb_neq in H. now rewrite H.
Qed.

Lemma cnot_scan_no_cx (rec : tree -> outcome bool * tree) l :
  Forall (fun x => Forall (fun g => name g <> "cx") (leaves x) ->
                   rec x = (Returned false, x)) l ->
  Forall (fun g => name g <> "cx") (leaves_data l) ->
  cnot_scan rec l = (Returned false, l).
Proof.
  induction 1 as [| x rest Hx _ IH]; intros Hl; [reflexivity |].
  rewrite leaves_data_cons in Hl. apply Forall_app in Hl.
  destruct Hl as [Hl1 Hl2].
  cbn [cnot_scan]. destruct rest as [| x' rest'].
  - destruct x; [reflexivity | now rewrite (Hx Hl1)].
  - rewrite (IH Hl2), (Hx Hl1). now apply cnot_step_no_cx.
Qed.

Lemma remove_double_cnots_once_no_cx t :
  Forall (fun g => name g <> "cx") (leaves t) ->
  remove_double_cnots_once t = (Returned false, t).
Proof.
  induction t as [g | data IH] using tree_ind'; intros H; [reflexivity |].
  cbn [remove_double_cnots_once].
  assert (E : rdco_body remove_double_cnots_once data
              = (Returned false, data)).
  { pose proof (cnot_scan_no_cx remove_double_cnots_once data IH H) as Hs.
    unfold rdco_body. destruct data as [| x l]; [reflexivity |].
    destruct x as [g | d]; [exact Hs |].
    destruct l as [| x' l']; [| exact Hs].
    inversion IH as [| ? ? Hx _]; subst.
    rewrite Hx; [reflexivity |].
    cbn [leaves flat_map] in H. now rewrite app_nil_r in H. }
  now rewrite E.
Qed.

(** X10.  On a tree without any leaf named "cx" the pass returns
    [False], raises nothing and leaves [self.data] as it was. *)
Theorem remove_double_cnots_once_without_cx (data : list tree) :
  Forall (fun g => name g <> "cx") (leaves_data data) ->
  rdco_data data = (Returned false, data).
Proof.
  intros H.
  pose proof (remove_double_cnots_once_no_cx (Composite data) H) as E.
  cbn [remove_double_cnots_once] in E. fold (rdco_data data) in E.
  destruct (rdco_data data) as [o d]. cbn [fst snd] in E.
  now injection E as -> ->.
Qed.

Lemma remove_double_cnots_once_without_cx_witness :
  rdco_data [Leaf (RZGate 1 0); Composite [Leaf (RYGate 1 0); Composite []];
             Leaf (XGate 1)]
  = (Returned false,
     [Leaf (RZGate 1 0); Composite [Leaf (RYGate 1 0); Composite []];
      Leaf (XGate 1)]).
Proof.
  apply remove_double_cnots_once_without_cx.
  repeat constructor; discriminate.
Defined.

(* ------------------------------------------------------------------ *)
(** *** When the pass returns [False] *)

Lemma cnot_step_after_removal x sub rest d' :
  cnot_step x sub true rest <> (Returned false, d').
Proof.
  unfold cnot_step.
  replace (match x with
           | Composite _ => if true then (Returned true, x) else sub
           | Leaf _ => (Returned true, x)
           end) with (@Returned bool true, x) by now destruct x.
  destruct (left_gate x); [| discriminate].
  destruct (name g =? "cx"); [| discriminate].
  destruct rest as [| y rest']; [discriminate |].
  destruct (right_gate y); [| discriminate].
  destruct (_ && _); discriminate.
Qed.

(** A step that starts and ends with the flag down has found nothing to
    cancel between the node and its right neighbour. *)
Lemma cnot_step_false x sub rest d' :
  cnot_step x sub false rest = (Returned false, d') ->
  exists x1,
    match x with
    | Composite _ => sub = (Returned false, x1)
    | Leaf _ => x1 = x
    end /\
    d' = x1 :: rest /\
    match rest with
    | y :: _ => cancellable x1 y = false
    | [] => True
    end.
Proof.
  unfold cnot_step, cancellable.
  destruct (match x with
            | Composite _ => if false then (Returned true, x) else sub
            | Leaf _ => (Returned false, x)
            end) as [o x1] eqn:E.
  intros H. exists x1.
  assert (Ho : o = Returned false ->
               match x with
               | Composite _ => sub = (Returned false, x1)
               | Leaf _ => x1 = x
               end).
  { intros ->. destruct x; [now injection E | exact E]. }
  destruct o as [removed1 | e]; [| discriminate].
  destruct (left_gate x1) as [gl |].
  - destruct (name gl =? "cx").
    + destruct rest as [| y rest']; [discriminate |].
      destruct (right_gate y) as [gr |].
      * cbn [andb]. destruct (_ && _); [discriminate |].
        injection H as -> <-. repeat split; auto; now apply Ho.
      * injection H as -> <-. repeat split; auto; now apply Ho.
    + injection H as -> <-. split; [now apply Ho |]. split; [reflexivity |].
      destruct rest as [| y ?]; [exact I |]. now destruct (right_gate y).
  - injection H as -> <-. split; [now apply Ho |]. split; [reflexivity |].
    now destruct rest.
Qed.

(** Conversely, with nothing to cancel the step changes nothing. *)
Lemma cnot_step_settled x sub y rest :
  match x with
  | Composite _ => sub = (Returned false, x)
  | Leaf _ => True
  end ->
  cancellable x y = false ->
  cnot_step x sub false (y :: rest) = (Returned false, x :: y :: rest).
Proof.
  unfold cnot_step, cancellable. intros Hsub H.
  replace (match x with
           | Composite _ => if false then (Returned true, x) else sub
           | Leaf _ => (Returned false, x)
           end) with (@Returned bool false, x)
    by (destruct x; [reflexivity | now rewrite Hsub]).
  destruct (left_gate x) as [gl |]; [| reflexivity].
  destruct (name gl =? "cx"); [| reflexivity].
  destruct (right_gate y) as [gr |]; [| reflexivity].
  cbn [andb] in H. now rewrite H.
Qed.

Lemma cnot_scan_settled (rec : tree -> outcome bool * tree) l :
  Forall (false_means_settled rec) l ->
  forall l',
    cnot_scan rec l = (Returned false, l') <->
    (l' = l /\ no_cancellable_neighbours l = true
     /\ forallb settled l = true).
Proof.
  induction 1 as [| x rest Hx _ IH]; intros l'.
  - cbn. split; [now intros [= <-] | now intros [-> _]].
  - cbn [cnot_scan]. destruct rest as [| y rest'].
    + cbn [no_cancellable_neighbours forallb].
      destruct x as [g | d].
      * cbn. split; [now intros [= <-] | now intros [-> _]].
      * split.
        -- destruct (rec (Composite d)) as [o x1] eqn:E.
           intros [= -> <-]. apply Hx in E. destruct E as [-> Hs].
           now rewrite Hs.
        -- intros (-> & _ & Hs). rewrite andb_true_r in Hs.
           destruct (Hx (Composite d)) as [_ Hx'].
           now rewrite (Hx' (conj eq_refl Hs)).
    + destruct (cnot_scan rec (y :: rest')) as [o rest1] eqn:Es.
      change (no_cancellable_neighbours (x :: y :: rest'))
        with (negb (cancellable x y)
              && no_cancellable_neighbours (y :: rest')).
      change (forallb settled (x :: y :: rest'))
        with (settled x && forallb settled (y :: rest')).
      split.
      * intros H. destruct o as [removed | e]; [| discriminate].
        destruct removed; [now apply cnot_step_after_removal in H |].
        destruct (IH rest1) as [IH1 _].
        destruct (IH1 eq_refl) as (-> & Hn & Hs).
        apply cnot_step_false in H.
        destruct H as (x1 & Hsub & -> & Hc).
        assert (Hx1 : x1 = x /\ settled x = true).
        { destruct x as [g | d]; [now subst |]. now apply Hx. }
        destruct Hx1 as [-> Hsx].
        now rewrite Hc, Hn, Hs, Hsx.
      * intros (-> & Hn & Hs).
        apply andb_prop in Hn, Hs.
        destruct Hn as [Hc Hn], Hs as [Hsx Hs].
        apply negb_true_iff in Hc.
        destruct (IH (y :: rest')) as [_ IH2].
        specialize (IH2 (conj eq_refl (conj Hn Hs))).
        injection IH2 as -> ->.
        apply cnot_step_settled; [| exact Hc].
        destruct x as [g | d]; [exact I |]. now apply Hx.
Qed.

Lemma rdco_body_settled (rec : tree -> outcome bool * tree) data :
  Forall (false_means_settled rec) data ->
  forall data',
    rdco_body rec data = (Returned false, data') <->
    (data' = data /\ settled (Composite data) = true).
Proof.
  intros H data'.
  pose proof (cnot_scan_settled rec data H data') as Hs.
  cbn [settled].
  assert (Hiff : (data' = data /\
                  no_cancellable_neighbours data && forallb settled data
                  = true) <->
                 (data' = data /\ no_cancellable_neighbours data = true
                  /\ forallb settled data = true)).
  { rewrite andb_true_iff. tauto. }
  rewrite Hiff. clear Hiff.
  unfold rdco_body. destruct data as [| x l].
  - cbn. split; [now intros [= <-] | now intros [-> _]].
  - destruct x as [g | d]; [exact Hs |].
    destruct l as [| x' l']; [| exact Hs].
    exact Hs.
Qed.

Lemma remove_double_cnots_once_settled t :
  false_means_settled remove_double_cnots_once t.
Proof.
  induction t as [g | data IH] using tree_ind'; intros x'.
  - cbn. split; [now intros [= <-] | now intros [-> _]].
  - cbn [remove_double_cnots_once].
    pose proof (rdco_body_settled remove_double_cnots_once data IH) as H.
    destruct (rdco_body remove_double_cnots_once data) as [o d'].
    cbn [fst snd]. split.
    + intros [= -> <-]. destruct (H d') as [H1 _].
      destruct (H1 eq_refl) as [-> Hs]. auto.
    + intros [-> Hs]. destruct (H data) as [_ H2].
      specialize (H2 (conj eq_refl Hs)). now injection H2 as -> ->.
Qed.

Lemma rdco_data_settled data :
  rdco_data data = (Returned false, data)
  <-> settled (Composite data) = true.
Proof.
  pose proof (rdco_body_settled remove_double_cnots_once data) as H.
  unfold rdco_data. rewrite H.
  - tauto.
  - apply Forall_forall. intros x _.
    apply remove_double_cnots_once_settled.
Qed.

(** X11.  The pass returns [False] exactly on settled trees: those in
    which, in every list at every depth, no two neighbours show the pass
    a pair of "cx" gates with the same qubit arguments on their facing
    edges.  On such a tree it raises nothing and changes nothing. *)
Theorem remove_double_cnots_once_false_iff_settled (data : list tree) :
  (forall data', rdco_data data = (Returned false, data') -> data' = data)
  /\ (rdco_data data = (Returned false, data)
      <-> settled (Composite data) = true).
Proof.
  split; [| apply rdco_data_settled].
  intros data' E. destruct (rdco_data_spec data) as [_ Hf].
  rewrite E in Hf. exact Hf.
Qed.

(* ------------------------------------------------------------------ *)
(** *** The optimizer as a whole *)

Lemma cnot_loop_raises fuel data e data' :
  cnot_loop fuel data = Some (Raised e, data') -> e = IndexError.
Proof.
  revert data. induction fuel as [| fuel IH]; intros data H;
    [discriminate |].
  cbn [cnot_loop] in H.
  pose proof (rdco_data_raises data) as Hr.
  unfold raises_only_IndexError in Hr.
  destruct (rdco_data data) as [[[|] | e'] data1]; cbn [fst] in Hr.
  - now apply IH in H.
  - discriminate.
  - now injection H as <- _.
Qed.

(** X12.  [optimize_gates] always terminates: the loop
    [while self.remove_double_cnots_once()] ends by a pass that returns
    [False] or by an [IndexError], never by any other exception.  What it
    leaves is the leaf sequence of the input without its zero rotations
    and with some adjacent pairs of equal "cx" gates cancelled; all other
    leaves are kept, in their order. *)
Theorem optimize_gates_terminates (data : list tree) :
  exists o data',
    optimize_gates data = Some (o, data') /\
    (o = Returned tt \/ o = Raised IndexError) /\
    cancels (filter kept (leaves_data data)) (leaves_data data') /\
    filter not_cx (leaves_data data')
    = filter not_cx (filter kept (leaves_data data)).
Proof.
  destruct (optimize_gates_total data) as [[o data'] H].
  exists o, data'. split; [exact H |].
  unfold optimize_gates in H.
  pose proof (cnot_loop_spec _ _ _ _ H) as [Hc _].
  rewrite rzr_data_leaves in Hc.
  split; [| split; [exact Hc | now apply cancels_not_cx]].
  destruct o as [[] | e]; [now left | right].
  apply cnot_loop_raises in H. now subst.
Qed.

(** X13.  When [optimize_gates] returns, the tree is a fixpoint of both
    passes: it is settled (another cancellation pass returns [False]), no
    rotation leaf has an angle below [_EPS], and another zero-rotation
    pass deletes no leaf. *)
Theorem optimize_gates_result (data data' : list tree) :
  optimize_gates data = Some (Returned tt, data') ->
  settled (Composite data') = true /\
  rdco_data data' = (Returned false, data') /\
  Forall (fun g => ~ zero_rotation g) (leaves_data data') /\
  fst (rzr_data data') = false.
Proof.
  unfold optimize_gates. intros H.
  apply cnot_loop_spec in H. destruct H as [Hc Hfix].
  specialize (Hfix eq_refl).
  assert (Hz : Forall (fun g => ~ zero_rotation g) (leaves_data data')).
  { eapply cancels_Forall; [exact Hc |].
    eapply Forall_impl; [| apply rzr_data_kept].
    intros g. apply kept_not_zero. }
  split; [now apply rdco_data_settled |].
  split; [exact Hfix |]. split; [exact Hz |].
  rewrite rzr_flag_data.
  destruct (existsb zero_rotationb (leaves_data data')) eqn:E;
    [| reflexivity].
  apply existsb_exists in E. destruct E as [g [Hg Hzg]].
  rewrite Forall_forall in Hz. exfalso. apply (Hz g Hg).
  now apply zero_rotationb_spec.
Qed.

Lemma optimize_gates_result_witness :
  settled (Composite [Leaf (CnotGate 2 1); Composite [Leaf (RZGate 1 0)]])
  = true.
Proof.
  apply (optimize_gates_result
           [Leaf (RYGate 0 0); Leaf (CnotGate 0 1); Leaf (CnotGate 0 1);
            Leaf (CnotGate 2 1); Composite [Leaf (RZGate 1 0)]]).
  reflexivity.
Defined.

(* ------------------------------------------------------------------ *)
(** *** The edge hosts *)

(** X14.  When [first_atomic_gate_host] returns a list, the list starts
    with a leaf gate, and that gate is the first leaf of the whole node;
    so deleting index 0 of the list deletes the leftmost gate. *)
Theorem first_atomic_gate_host_spec (t : tree) (host : list tree) :
  first_atomic_gate_host t = Some host ->
  exists g rest tl,
    host = Leaf g :: rest /\
    leaves t = g :: tl /\
    leaves (del_first_atomic_gate t) = tl.
Proof.
  revert host. induction t as [g | data IH] using tree_ind'; intros host H.
  - discriminate.
  - cbn [first_atomic_gate_host] in H.
    destruct data as [| x l]; [discriminate |].
    inversion IH as [| ? ? Hx _]; subst.
    destruct x as [g | d].
    + injection H as <-. exists g, l, (leaves_data l). repeat split.
    + destruct (Hx host H) as (g & rest & tl & -> & Hl & Hd).
      exists g, rest, (tl ++ leaves_data l). split; [reflexivity |].
      cbn [del_first_atomic_gate leaves flat_map] in *.
      now rewrite Hl, Hd.
Qed.

Lemma first_atomic_gate_host_spec_witness :
  exists g rest tl,
    [Leaf (XGate 1); Leaf (CnotGate 0 1)] = Leaf g :: rest /\
    leaves (Composite [Composite [Leaf (XGate 1); Leaf (CnotGate 0 1)];
                       Leaf (RZGate 1 0)]) = g :: tl /\
    leaves (del_first_atomic_gate
              (Composite [Composite [Leaf (XGate 1); Leaf (CnotGate 0 1)];
                          Leaf (RZGate 1 0)])) = tl.
Proof.
  apply (first_atomic_gate_host_spec
           (Composite [Composite [Leaf (XGate 1); Leaf (CnotGate 0 1)];
                       Leaf (RZGate 1 0)])).
  reflexivity.
Defined.

Lemma del_last_loop_snoc (rec : tree -> tree) pre x :
  del_last_loop rec (pre ++ [x])
  = pre ++ match x with
           | Composite _ => [rec x]
           | Leaf _ => []
           end.
Proof.
  induction pre as [| y pre IH]; [reflexivity |].
  cbn [app del_last_loop]. cbn [app] in IH.
  destruct (pre ++ [x]) as [| z l] eqn:E; [now destruct pre |].
  now rewrite IH.
Qed.

(** X15.  When [last_atomic_gate_host] returns a list, the list ends
    with a leaf gate, and that gate is the last leaf of the whole node;
    so deleting index -1 of the list deletes the rightmost gate. *)
Theorem last_atomic_gate_host_spec (t : tree) (host : list tree) :
  last_atomic_gate_host t = Some host ->
  exists g pre tl,
    host = pre ++ [Leaf g] /\
    leaves t = tl ++ [g] /\
    leaves (del_last_atomic_gate t) = tl.
Proof.
  revert host. induction t as [g | data IH] using tree_ind'; intros host H.
  - discriminate.
  - cbn [last_atomic_gate_host] in H.
    destruct (rev data) as [| x l] eqn:E;
      apply (f_equal (@rev tree)) in E; rewrite rev_involutive in E;
      cbn [rev] in E; subst data; [discriminate |].
    rewrite last_host_loop_snoc in H.
    apply Forall_app in IH. destruct IH as [_ IH].
    inversion IH as [| ? ? Hx _]; subst.
    cbn [del_last_atomic_gate leaves].
    rewrite del_last_loop_snoc, !flat_map_app.
    destruct x as [g | d].
    + injection H as <-. exists g, (rev l), (flat_map leaves (rev l)).
      repeat split. cbn. now rewrite app_nil_r.
    + destruct (Hx host H) as (g & pre & tl & -> & Hl & Hd).
      exists g, pre, (flat_map leaves (rev l) ++ tl).
      split; [reflexivity |].
      cbn [flat_map]. rewrite !app_nil_r, Hl, Hd.
      split; [now rewrite app_assoc | reflexivity].
Qed.

Lemma last_atomic_gate_host_spec_witness :
  exists g pre tl,
    [Leaf (XGate 1); Leaf (CnotGate 0 1)] = pre ++ [Leaf g] /\
    leaves (Composite [Leaf (RZGate 1 0);
                       Composite [Leaf (XGate 1); Leaf (CnotGate 0 1)]])
    = tl ++ [g] /\
    leaves (del_last_atomic_gate
              (Composite [Leaf (RZGate 1 0);
                          Composite [Leaf (XGate 1); Leaf (CnotGate 0 1)]]))
    = tl.
Proof.
  apply (last_atomic_gate_host_spec
           (Composite [Leaf (RZGate 1 0);
                       Composite [Leaf (XGate 1); Leaf (CnotGate 0 1)]])).
  reflexivity.
Defined.

(** ** Multiplexed-rotation synthesizer *)

Section MultiplexFacts.
Variable num_qubits : nat.
Variable self_qargs : list qubit.
Variable bottom_gate : Q -> qubit -> Gate.
Variable bottom : nat.

Lemma mux_tree_leaves_count k : forall l,
  k + 1 + bottom <= num_qubits ->
  List.length (leaves (mux_tree num_qubits self_qargs bottom_gate bottom k l))
  = 2 ^ (k + 1) - 1
    + (if (1 <=? k)%nat && (num_qubits =? k + 1 + bottom)%nat then 1 else 0).
Proof.
  induction k as [| k IH]; intros l Hk; [reflexivity |].
  cbn [mux_tree leaves flat_map].
  pose proof (leaves_reverse
                (mux_tree num_qubits self_qargs bottom_gate bottom k
                   (skipn (2 ^ k) (transformed l)))) as Hrev.
  rewrite flat_map_app. cbn [flat_map].
  rewrite !length_app, Hrev, length_rev, !IH by lia.
  replace ((1 <=? k)%nat && (num_qubits =? k + 1 + bottom)%nat) with false.
  2:{ symmetry. apply andb_false_iff. right. apply Nat.eqb_neq. lia. }
  cbn [leaves List.length Nat.leb andb].
  replace (2 ^ (S k + 1)) with (2 * 2 ^ (k + 1))
    by (rewrite <- Nat.pow_succ_r'; f_equal; lia).
  pose proof (Nat.pow_nonzero 2 (k + 1) ltac:(lia)).
  destruct (Nat.eqb num_qubits (S k + 1 + bottom));
    cbn [flat_map leaves app List.length]; lia.
Qed.

Lemma mux_tree_leaves_shape k : forall l,
  Forall (fun g =>
            (exists a, g = bottom_gate a (nth bottom self_qargs 0)) \/
            (exists j, 1 <= j <= k /\
                       g = CnotGate (nth (j + bottom) self_qargs 0)
                                    (nth bottom self_qargs 0)))
    (leaves (mux_tree num_qubits self_qargs bottom_gate bottom k l)).
Proof.
  induction k as [| k IH]; intros l.
  - cbn. constructor; [| constructor]. left. eauto.
  - cbn [mux_tree leaves flat_map].
    pose proof (leaves_reverse
                  (mux_tree num_qubits self_qargs bottom_gate bottom k
                     (skipn (2 ^ k) (transformed l)))) as Hrev.
    rewrite flat_map_app. cbn [flat_map]. rewrite Hrev. clear Hrev.
    assert (Hup : forall l',
      Forall (fun g =>
                (exists a, g = bottom_gate a (nth bottom self_qargs 0)) \/
                (exists j, 1 <= j <= S k /\
                           g = CnotGate (nth (j + bottom) self_qargs 0)
                                        (nth bottom self_qargs 0)))
        (leaves (mux_tree num_qubits self_qargs bottom_gate bottom k l'))).
    { intros l'. eapply Forall_impl; [| apply IH].
      intros g [Ha | [j [Hj Hg]]]; [now left | right].
      exists j. split; [lia | exact Hg]. }
    assert (Hcx : (exists a, CnotGate (nth (S k + bottom) self_qargs 0)
                               (nth bottom self_qargs 0)
                             = bottom_gate a (nth bottom self_qargs 0)) \/
                  (exists j, 1 <= j <= S k /\
                             CnotGate (nth (S k + bottom) self_qargs 0)
                               (nth bottom self_qargs 0)
                             = CnotGate (nth (j + bottom) self_qargs 0)
                                        (nth bottom self_qargs 0))).
    { right. exists (S k). split; [lia | reflexivity]. }
    apply Forall_app; split.
    + apply Forall_app; split; [apply Hup |].
      cbn [leaves app]. constructor; [exact Hcx |].
      apply Forall_app; split; [apply Forall_rev, Hup | constructor].
    + destruct (Nat.eqb num_qubits (S k + 1 + bottom));
        cbn [flat_map leaves app];
        [constructor; [exact Hcx | constructor] | constructor].
Qed.
End MultiplexFacts.

(** X16.  The size of a multiplexor.  For a list of length [2 ^ k] in
    a register that has room for it (k + 1 + bottom index qubits at
    most the total), [_multiplex] returns a tree with [2 ^ (k + 1) - 1]
    leaf gates, and one more, the trailing CNOT, when k >= 1 and it is
    the outermost multiplexor. *)
Theorem multiplex_size (num_qubits : nat) (self_qargs : list qubit)
  (bottom_gate : Q -> qubit -> Gate) (bottom k : nat) (l : list Q) :
  List.length l = 2 ^ k ->
  bottom + k < List.length self_qargs ->
  k + 1 + bottom <= num_qubits ->
  exists t,
    multiplex num_qubits self_qargs bottom_gate bottom l = ret t /\
    number_atomic_gates t
    = 2 ^ (k + 1) - 1
      + (if (1 <=? k)%nat && (num_qubits =? k + 1 + bottom)%nat then 1 else 0).
Proof.
  intros Hlen Hq Hn. eexists. split.
  - now apply (multiplex_mux_tree _ _ _ _ k).
  - rewrite number_atomic_gates_leaves. now apply mux_tree_leaves_count.
Qed.

Lemma multiplex_size_witness :
  exists t,
    multiplex 3 [0; 1; 2] RZGate 0 [1%Q; 3%Q; 5%Q; 9%Q] = ret t /\
    number_atomic_gates t = 8.
Proof.
  apply (multiplex_size 3 [0; 1; 2] RZGate 0 2 [1%Q; 3%Q; 5%Q; 9%Q]);
    [reflexivity | simpl; lia | lia].
Defined.

(** X17.  The qubits a multiplexor touches.  Every leaf of the tree
    built for a list of length [2 ^ k] is either the rotation
    [bottom_gate] on the bottom qubit or a CNOT whose target is the bottom
    qubit and whose control is one of the k qubits above it. *)
Theorem multiplex_qubits (num_qubits : nat) (self_qargs : list qubit)
  (bottom_gate : Q -> qubit -> Gate) (bottom k : nat) (l : list Q) :
  List.length l = 2 ^ k ->
  bottom + k < List.length self_qargs ->
  exists t target,
    multiplex num_qubits self_qargs bottom_gate bottom l = ret t /\
    nth_error self_qargs bottom = Some target /\
    Forall (fun g =>
              (exists a, g = bottom_gate a target) \/
              (exists j control,
                  1 <= j <= k /\
                  nth_error self_qargs (j + bottom) = Some control /\
                  g = CnotGate control target))
      (leaves t).
Proof.
  intros Hlen Hq. eexists. exists (nth bottom self_qargs 0).
  split; [now apply (multiplex_mux_tree _ _ _ _ k) |].
  split; [apply nth_error_nth'; lia |].
  eapply Forall_impl; [| apply mux_tree_leaves_shape].
  intros g [Ha | [j [Hj Hg]]]; [now left | right].
  exists j, (nth (j + bottom) self_qargs 0).
  split; [exact Hj |]. split; [apply nth_error_nth'; lia | exact Hg].
Qed.

Lemma multiplex_qubits_witness :
  exists t target,
    multiplex 3 [0; 1; 2] RYGate 1 [1%Q; 3%Q] = ret t /\
    nth_error [0; 1; 2] 1 = Some target /\
    Forall (fun g =>
              (exists a, g = RYGate a target) \/
              (exists j control,
                  1 <= j <= 1 /\
                  nth_error [0; 1; 2] (j + 1) = Some control /\
                  g = CnotGate control target))
      (leaves t).
Proof.
  apply (multiplex_qubits 3 [0; 1; 2] RYGate 1 1 [1%Q; 3%Q]);
    [reflexivity | simpl; lia].
Defined.

Lemma identity_length h : List.length (identity h) = h.
Proof. unfold identity. now rewrite length_map, length_seq. Qed.

Lemma angle_weight_length n :
  List.length (angle_weight n) = 2 * 2 ^ (n - 2).
Proof.
  unfold angle_weight, kron. cbn [flat_map].
  rewrite !length_app, !length_map, identity_length. simpl. lia.
Qed.

Lemma angle_weight_rows n row :
  In row (angle_weight n) -> List.length row = 2 * 2 ^ (n - 2).
Proof.
  unfold angle_weight, kron. cbn [flat_map]. rewrite app_nil_r.
  intros H. apply in_app_or in H.
  destruct H as [H | H]; apply in_map_iff in H;
    destruct H as [rb [<- Hrb]]; apply identity_rows in Hrb;
    cbn [flat_map]; rewrite !length_app, !length_map, Hrb; simpl; lia.
Qed.

Lemma angle_weight_size len :
  2 <= len ->
  2 * 2 ^ (Nat.log2 len + 1 - 2) = 2 ^ Nat.log2 len /\
  2 ^ Nat.log2 len <= len.
Proof.
  intros H. pose proof (Nat.log2_pos len ltac:(lia)) as Hp.
  pose proof (Nat.log2_spec len ltac:(lia)) as [Hs _].
  split; [| exact Hs].
  destruct (Nat.log2 len) as [| m]; [lia |].
  replace (S m + 1 - 2) with m by lia. now rewrite Nat.pow_succ_r'.
Qed.

Section MultiplexRuns.
Variable num_qubits : nat.
Variable self_qargs : list qubit.
Variable bottom_gate : Q -> qubit -> Gate.
Variable bottom : nat.

Lemma _multiplex_terminates fuel : forall l,
  List.length l < fuel ->
  exists r, _multiplex num_qubits self_qargs fuel bottom_gate bottom l
            = Some r.
Proof.
  induction fuel as [| fuel IH]; intros l Hlen; [lia |].
  cbn [_multiplex]. unfold nth_qubit_from_least_sig_qubit.
  destruct (nth_error self_qargs bottom) as [target |];
    cbn [bind ret raise]; [| eexists; reflexivity].
  destruct (Nat.eqb_spec (List.length l) 1) as [| H1]; [eexists; reflexivity |].
  destruct (Nat.eqb_spec (List.length l) 0) as [| H0]; [eexists; reflexivity |].
  destruct (nth_error self_qargs _) as [control |];
    cbn [bind ret raise]; [| eexists; reflexivity].
  unfold dot. destruct (forallb _ _); cbn [bind ret raise]; [| eexists; reflexivity].
  set (T := map _ (angle_weight _)).
  assert (HT : List.length T <= List.length l).
  { unfold T. rewrite length_map, angle_weight_length.
    destruct (angle_weight_size (List.length l) ltac:(lia)) as [-> Hle].
    exact Hle. }
  assert (Hhalf : 1 <= List.length l / 2 < List.length l).
  { split; [apply Nat.div_le_lower_bound; lia
           | apply Nat.div_lt; lia]. }
  destruct (IH (firstn (List.length l / 2) T)) as [[t1 | e1] ->];
    [rewrite length_firstn; lia | | cbn [bind]; eexists; reflexivity].
  cbn [bind].
  destruct (IH (skipn (List.length l / 2) T)) as [[t2 | e2] ->];
    [rewrite length_skipn; lia | | cbn [bind]; eexists; reflexivity].
  cbn [bind ret]. eexists; reflexivity.
Qed.

End MultiplexRuns.

(** X18.  [_multiplex] terminates on every list of angles, whatever its
    length: the recursion is on lists at most half as long, so fuel above
    the length of the list is never used up. *)
Theorem multiplex_terminates (num_qubits : nat) (self_qargs : list qubit)
  (bottom_gate : Q -> qubit -> Gate) (bottom : nat) (l : list Q) :
  (exists t, multiplex num_qubits self_qargs bottom_gate bottom l = ret t) \/
  (exists e, multiplex num_qubits self_qargs bottom_gate bottom l = raise e).
Proof.
  destruct (_multiplex_terminates num_qubits self_qargs bottom_gate bottom
              (S (List.length l)) l ltac:(lia)) as [[t | e] H];
    [left | right]; eauto.
Qed.

(** X19.  [_multiplex] builds a tree only for lists whose length is a
    power of two: on any other list, the empty one included, it raises
    [IndexError] (a qubit offset out of range) or [ValueError]
    ([math.log2(0)], or the shapes in [angle_weight.dot] do not align). *)
Theorem multiplex_rejects_other_lengths (num_qubits : nat)
  (self_qargs : list qubit) (bottom_gate : Q -> qubit -> Gate)
  (bottom : nat) (l : list Q) :
  (forall k, List.length l <> 2 ^ k) ->
  multiplex num_qubits self_qargs bottom_gate bottom l = raise IndexError \/
  multiplex num_qubits self_qargs bottom_gate bottom l = raise ValueError.
Proof.
  intros Hk. unfold multiplex. cbn [_multiplex].
  unfold nth_qubit_from_least_sig_qubit.
  destruct (nth_error self_qargs bottom) as [target |];
    cbn [bind ret raise]; [| now left].
  destruct (Nat.eqb_spec (List.length l) 1) as [E | H1];
    [now specialize (Hk 0) |].
  destruct (Nat.eqb_spec (List.length l) 0) as [| H0]; [now right |].
  destruct (nth_error self_qargs _) as [control |];
    cbn [bind ret raise]; [| now left].
  unfold dot.
  destruct (forallb _ (angle_weight _)) eqn:E; [| now right].
  exfalso. rewrite forallb_forall in E.
  destruct (angle_weight_size (List.length l) ltac:(lia)) as [Hs _].
  pose proof (angle_weight_length (Nat.log2 (List.length l) + 1)) as Hlen.
  rewrite Hs in Hlen.
  destruct (angle_weight (Nat.log2 (List.length l) + 1)) as [| row m] eqn:Ea.
  - pose proof (Nat.pow_nonzero 2 (Nat.log2 (List.length l)) ltac:(lia)).
    simpl in Hlen. lia.
  - assert (Hin : In row (angle_weight (Nat.log2 (List.length l) + 1)))
      by (rewrite Ea; now left).
    apply angle_weight_rows in Hin. rewrite Hs in Hin.
    specialize (E row (or_introl eq_refl)). apply Nat.eqb_eq in E.
    apply (Hk (Nat.log2 (List.length l))). congruence.
Qed.

Lemma multiplex_rejects_other_lengths_witness :
  multiplex 3 [0; 1; 2] RZGate 0 [1%Q; 3%Q; 5%Q] = raise IndexError \/
  multiplex 3 [0; 1; 2] RZGate 0 [1%Q; 3%Q; 5%Q] = raise ValueError.
Proof.
  apply multiplex_rejects_other_lengths.
  intros k. cbn [List.length].
  destruct k as [| [| k]]; [discriminate | discriminate |].
  rewrite !Nat.pow_succ_r'.
  pose proof (Nat.pow_nonzero 2 k ltac:(lia)). lia.
Defined.

(* ------------------------------------------------------------------ *)
(** *** Calm trees: where the pass never raises *)

#[local] Hint Constructors thin : core.

Lemma thin_refl l : thin l l.
Proof. induction l as [| [g | d] l IH]; auto. Qed.

Lemma thin_trans a b c : thin a b -> thin b c -> thin a c.
Proof.
  intros H. revert c. induction H; intros c Hc; auto.
  - inversion Hc; subst; auto.
  - inversion Hc; subst; auto.
Qed.

Lemma thin_app a a' b b' : thin a a' -> thin b b' -> thin (a ++ b) (a' ++ b').
Proof. induction 1; cbn; auto. Qed.

Lemma thin_cx_leaves l l' :
  thin l l' -> forallb is_cx_leaf l' = true ->
  forallb is_cx_leaf l = true /\ List.length l' <= List.length l /\
  (List.length l = List.length l' -> l = l').
Proof.
  induction 1 as [| g l l' H IH | d d' l l' H IH | g l l' Hg H IH];
    cbn [forallb is_cx_leaf List.length]; intros Hc.
  - auto.
  - apply andb_prop in Hc. destruct Hc as [Hg Hc].
    destruct (IH Hc) as (H1 & H2 & H3). rewrite Hg, H1.
    repeat split; [lia |]. intros E. f_equal. apply H3. lia.
  - discriminate.
  - destruct (IH Hc) as (H1 & H2 & H3).
    apply String.eqb_eq in Hg. rewrite Hg, H1.
    repeat split; lia.
Qed.

Lemma tail_ok_three_cx l :
  forallb is_cx_leaf l = true -> 3 <= List.length l -> tail_ok l = false.
Proof.
  induction l as [| p rest IH]; cbn [forallb List.length tail_ok];
    intros Hc Hlen; [lia |].
  apply andb_prop in Hc. destruct Hc as [Hp Hc].
  destruct (Nat.eq_dec (List.length rest) 2) as [E | E].
  - destruct rest as [| c1 [| c2 [| ? ?]]]; try discriminate.
    cbn [forallb] in Hc. cbn [two_cx].
    apply andb_prop in Hc. destruct Hc as [H1 Hc].
    apply andb_prop in Hc. destruct Hc as [H2 _].
    rewrite H1, H2. destruct p; cbn in *; [now rewrite Hp | discriminate].
  - rewrite IH by (auto; lia). apply andb_false_r.
Qed.

Lemma tail_ok_tl p rest : tail_ok (p :: rest) = true -> tail_ok rest = true.
Proof. cbn [tail_ok]. intros H. now apply andb_prop in H. Qed.

(** [thin] keeps [tail_ok]. *)
Lemma thin_tail_ok l l' : thin l l' -> tail_ok l = true -> tail_ok l' = true.
Proof.
  assert (Hkey : forall x x' l l',
    thin l l' -> tail_ok (x :: l) = true ->
    (is_other_leaf x = true -> is_other_leaf x' = true) ->
    tail_ok l' = true ->
    tail_ok (x' :: l') = true).
  { intros x x' l0 l0' Hthin Hx Hxx' Hl'.
    cbn [tail_ok] in *. rewrite Hl', andb_true_r.
    destruct (two_cx l0') eqn:E2; [| reflexivity]. cbn [negb orb].
    apply Hxx'. apply andb_prop in Hx. destruct Hx as [Hx Hl].
    assert (Hcx : forallb is_cx_leaf l0' = true /\ List.length l0' = 2).
    { destruct l0' as [| c1 [| c2 [| ? ?]]]; try discriminate.
      cbn [two_cx] in E2. apply andb_prop in E2. destruct E2 as [E1 E3].
      split; [| reflexivity]. cbn [forallb]. now rewrite E1, E3. }
    destruct Hcx as [Hcx Hlen].
    destruct (thin_cx_leaves _ _ Hthin Hcx) as (H1 & H2 & H3).
    destruct (Nat.eq_dec (List.length l0) 2) as [E | E].
    - rewrite (H3 ltac:(lia)) in Hx. rewrite E2 in Hx. exact Hx.
    - rewrite (tail_ok_three_cx l0 H1 ltac:(lia)) in Hl. discriminate. }
  induction 1 as [| g l l' H IH | d d' l l' H IH | g l l' Hg H IH];
    intros Hl.
  - reflexivity.
  - eapply Hkey; eauto. apply IH. eapply tail_ok_tl; eauto.
  - eapply Hkey; eauto. apply IH. eapply tail_ok_tl; eauto.
  - apply IH. eapply tail_ok_tl; eauto.
Qed.

Lemma calm_del_first t : calm t = true -> calm (del_first_atomic_gate t) = true.
Proof.
  induction t as [g | data IH] using tree_ind'; intros H; [exact H |].
  cbn [calm del_first_atomic_gate] in *.
  apply andb_prop in H. destruct H as [Ht Hc].
  destruct data as [| x l]; [reflexivity |].
  inversion IH as [| ? ? Hx _]; subst.
  cbn [forallb] in Hc. apply andb_prop in Hc. destruct Hc as [Hcx Hc].
  destruct x as [g | d].
  - now rewrite (tail_ok_tl _ _ Ht), Hc.
  - cbn [forallb]. rewrite (Hx Hcx), Hc.
    cbn [del_first_atomic_gate].
    rewrite (thin_tail_ok (Composite d :: l)); auto using thin_refl.
Qed.

Lemma calm_del_last t g :
  calm t = true -> left_gate t = Some g -> name g = "cx" ->
  calm (del_last_atomic_gate t) = true.
Proof.
  revert g. induction t as [g0 | data IH] using tree_ind';
    intros g H Hg Hcx; [exact H |].
  cbn [calm del_last_atomic_gate] in *.
  apply andb_prop in H. destruct H as [Ht Hc].
  destruct (rev data) as [| x l] eqn:E;
    apply (f_equal (@rev tree)) in E; rewrite rev_involutive in E;
    cbn [rev] in E; subst data; [reflexivity |].
  rewrite left_gate_snoc in Hg.
  apply Forall_app in IH. destruct IH as [_ IH].
  inversion IH as [| ? ? Hx _]; subst.
  rewrite forallb_app in Hc. apply andb_prop in Hc.
  destruct Hc as [Hpre Hc]. cbn [forallb] in Hc.
  rewrite andb_true_r in Hc.
  rewrite del_last_loop_snoc, forallb_app, Hpre.
  destruct x as [g' | d].
  - cbn in Hg. injection Hg as ->. cbn [forallb]. rewrite andb_true_r.
    apply (thin_tail_ok (rev l ++ [Leaf g])); [| exact Ht].
    apply thin_app; auto using thin_refl.
  - cbn [forallb]. rewrite (Hx g Hc Hg Hcx). rewrite !andb_true_r.
    apply (thin_tail_ok (rev l ++ [Composite d])); [| exact Ht].
    apply thin_app; [apply thin_refl |].
    cbn [del_last_atomic_gate]. auto.
Qed.

Lemma del_left_thin x g :
  left_gate x = Some g -> name g = "cx" -> thin [x] (del_left x).
Proof.
  destruct x as [g' | d]; intros Hg Hcx.
  - cbn in Hg. injection Hg as ->. cbn. auto.
  - cbn. auto.
Qed.

Lemma del_right_thin y g :
  right_gate y = Some g -> name g = "cx" -> thin [y] (del_right y).
Proof.
  destruct y as [g' | d]; intros Hg Hcx.
  - cbn in Hg. injection Hg as ->. cbn. auto.
  - cbn. auto.
Qed.

Lemma del_left_calm x g :
  calm x = true -> left_gate x = Some g -> name g = "cx" ->
  forallb calm (del_left x) = true.
Proof.
  intros H Hg Hcx. destruct x as [g' | d]; [reflexivity |].
  cbn [del_left forallb]. now rewrite (calm_del_last _ g H Hg Hcx).
Qed.

Lemma del_right_calm y :
  calm y = true -> forallb calm (del_right y) = true.
Proof.
  intros H. destruct y as [g' | d]; [reflexivity |].
  cbn [del_right forallb]. now rewrite (calm_del_first _ H).
Qed.

(** One step of the loop on calm nodes. *)
Lemma cnot_step_calm x sub removed rest :
  calm x = true ->
  calm_result x sub ->
  forallb calm rest = true ->
  (rest = [] -> is_other_leaf x = true) ->
  let r := cnot_step x sub removed rest in
  (exists b, fst r = Returned b) /\
  thin (x :: rest) (snd r) /\
  forallb calm (snd r) = true.
Proof.
  intros Hx (Hret & Hsc & Hst) Hrest Hempty. unfold cnot_step.
  destruct (match x with
            | Composite _ => if removed then (Returned true, x) else sub
            | Leaf _ => (Returned removed, x)
            end) as [o x1] eqn:E.
  assert (H1 : (exists b, o = Returned b) /\ calm x1 = true /\
               thin [x] [x1] /\
               (is_other_leaf x = true -> is_other_leaf x1 = true
                                          /\ x1 = x)).
  { destruct x as [g | d].
    - injection E as <- <-. repeat split; eauto using thin_refl.
    - destruct removed.
      + injection E as <- <-. repeat split; eauto using thin_refl.
      + subst sub. cbn [fst snd] in *. repeat split; auto; discriminate. }
  destruct H1 as ([removed1 ->] & Hc1 & Ht1 & Ho1).
  assert (Hkeep : thin (x :: rest) (x1 :: rest)).
  { apply (thin_app [x] [x1] rest rest Ht1), thin_refl. }
  assert (Hkc : forallb calm (x1 :: rest) = true)
    by (cbn [forallb]; now rewrite Hc1, Hrest).
  destruct (left_gate x1) as [gl |] eqn:Hgl; [| cbn; eauto].
  destruct (name gl =? "cx") eqn:Hnl; [| cbn; eauto].
  apply String.eqb_eq in Hnl.
  destruct rest as [| y rest'].
  - exfalso. destruct (Ho1 (Hempty eq_refl)) as [Hother ->].
    destruct x as [g | d]; [| discriminate].
    cbn in Hgl, Hother. injection Hgl as ->.
    apply String.eqb_eq in Hnl. now rewrite Hnl in Hother.
  - destruct (right_gate y) as [gr |] eqn:Hgr; [| cbn; eauto].
    destruct ((name gr =? "cx") && _) eqn:Hpair; [| cbn; eauto].
    apply andb_prop in Hpair. destruct Hpair as [Hnr _].
    apply String.eqb_eq in Hnr.
    cbn [forallb] in Hrest. apply andb_prop in Hrest.
    destruct Hrest as [Hy Hrest'].
    cbn [fst snd]. split; [eauto |]. split.
    + eapply thin_trans; [exact Hkeep |].
      apply (thin_app [x1] (del_left x1) (y :: rest')
               (del_right y ++ rest')).
      * eapply del_left_thin; eauto.
      * apply (thin_app [y] (del_right y) rest' rest');
          [eapply del_right_thin; eauto | apply thin_refl].
    + rewrite !forallb_app, (del_left_calm x1 gl Hc1 Hgl Hnl),
        (del_right_calm y Hy), Hrest'. reflexivity.
Qed.

Lemma thin_to_nil l : thin l [] -> forallb is_cx_leaf l = true.
Proof. intros H. now apply (thin_cx_leaves l []) in H. Qed.

Lemma cnot_scan_calm (rec : tree -> outcome bool * tree) l :
  Forall (fun x => calm x = true -> calm_result x (rec x)) l ->
  tail_ok l = true ->
  forallb calm l = true ->
  let r := cnot_scan rec l in
  (exists b, fst r = Returned b) /\
  thin l (snd r) /\
  forallb calm (snd r) = true /\
  (snd r = [] -> l = [] \/ 2 <= List.length l).
Proof.
  induction 1 as [| x rest Hx _ IH]; intros Ht Hc.
  - cbn. repeat split; eauto using thin_nil.
  - cbn [forallb] in Hc. apply andb_prop in Hc. destruct Hc as [Hcx Hc].
    specialize (Hx Hcx). cbn [cnot_scan]. destruct rest as [| y rest'].
    + destruct x as [g | d].
      * cbn. repeat split; eauto using thin_refl; discriminate.
      * destruct Hx as ([b Hb] & Hsc & Hst).
        destruct (rec (Composite d)) as [o x'].
        cbn [fst snd forallb] in *. subst o. rewrite Hsc.
        repeat split; eauto; discriminate.
    + specialize (IH (tail_ok_tl _ _ Ht) Hc). cbv zeta in IH.
      destruct (cnot_scan rec (y :: rest')) as [o rest1].
      cbn [fst snd] in IH.
      destruct IH as ([removed ->] & Hthin & Hc1 & Hnil).
      assert (Hempty : rest1 = [] -> is_other_leaf x = true).
      { intros ->. apply thin_to_nil in Hthin.
        destruct (Hnil eq_refl) as [| Hlen]; [discriminate |].
        pose proof (tail_ok_tl _ _ Ht) as Ht2.
        change (tail_ok (x :: y :: rest'))
          with ((negb (two_cx (y :: rest')) || is_other_leaf x)
                && tail_ok (y :: rest')) in Ht.
        apply andb_prop in Ht. destruct Ht as [Ht1 _].
        destruct (Nat.eq_dec (List.length (y :: rest')) 2) as [E | E].
        - assert (E2 : two_cx (y :: rest') = true).
          { destruct rest' as [| c2 [| ? ?]]; try discriminate.
            cbn [forallb] in Hthin. cbn [two_cx].
            now rewrite andb_true_r in Hthin. }
          now rewrite E2 in Ht1.
        - rewrite (tail_ok_three_cx _ Hthin ltac:(lia)) in Ht2.
          discriminate. }
      destruct (cnot_step_calm x (rec x) removed rest1 Hcx Hx Hc1 Hempty)
        as (Hret & Hth & Hcc).
      split; [exact Hret |]. split; [| split; [exact Hcc |]].
      * eapply thin_trans; [| exact Hth].
        apply (thin_app [x] [x]); [apply thin_refl | exact Hthin].
      * intros _. right. cbn [List.length]. lia.
Qed.

Lemma rdco_body_calm (rec : tree -> outcome bool * tree) data :
  Forall (fun x => calm x = true -> calm_result x (rec x)) data ->
  calm (Composite data) = true ->
  let r := rdco_body rec data in
  (exists b, fst r = Returned b) /\ calm (Composite (snd r)) = true.
Proof.
  intros H Hc. cbn [calm] in Hc. apply andb_prop in Hc.
  destruct Hc as [Ht Hc].
  assert (Hscan : let r := cnot_scan rec data in
                  (exists b, fst r = Returned b)
                  /\ calm (Composite (snd r)) = true).
  { destruct (cnot_scan_calm rec data H Ht Hc) as (Hr & Hth & Hcc & _).
    cbv zeta. split; [exact Hr |]. cbn [calm].
    now rewrite (thin_tail_ok _ _ Hth Ht), Hcc. }
  unfold rdco_body. destruct data as [| x l]; [cbn; eauto |].
  destruct x as [g | d]; [exact Hscan |].
  destruct l as [| x' l']; exact Hscan.
Qed.

Lemma remove_double_cnots_once_calm t :
  calm t = true -> calm_result t (remove_double_cnots_once t).
Proof.
  induction t as [g | data IH] using tree_ind'; intros Hc.
  - split; [now exists false |]. split; [reflexivity | apply thin_refl].
  - destruct (rdco_body_calm remove_double_cnots_once data IH Hc)
      as (Hr & Hcc).
    cbn [remove_double_cnots_once].
    split; [exact Hr |]. split; [exact Hcc |].
    cbn [snd]. apply thin_composite, thin_nil.
Qed.

Lemma rdco_data_calm data :
  calm (Composite data) = true ->
  (exists b, fst (rdco_data data) = Returned b) /\
  calm (Composite (snd (rdco_data data))) = true.
Proof.
  intros Hc. apply rdco_body_calm; [| exact Hc].
  apply Forall_forall. intros x _. apply remove_double_cnots_once_calm.
Qed.

Lemma cnot_loop_calm fuel : forall data r,
  calm (Composite data) = true ->
  cnot_loop fuel data = Some r ->
  fst r = Returned tt /\ calm (Composite (snd r)) = true.
Proof.
  induction fuel as [| fuel IH]; intros data r Hc H; [discriminate |].
  cbn [cnot_loop] in H.
  destruct (rdco_data_calm data Hc) as ([b Hb] & Hcc).
  destruct (rdco_data data) as [o data1]. cbn [fst snd] in *. subst o.
  destruct b.
  - now apply (IH data1).
  - now injection H as <-.
Qed.

(* ------------------------------------------------------------------ *)
(** *** The synthesized trees are calm after zero-rotation elimination *)

Lemma two_cx_long l : 3 <= List.length l -> two_cx l = false.
Proof.
  destruct l as [| ? [| ? [| ? ?]]]; cbn; intros; try lia; reflexivity.
Qed.

Lemma tail_ok_short l : List.length l <= 2 -> tail_ok l = true.
Proof.
  destruct l as [| a [| b [| ? ?]]]; cbn; intros; try lia; reflexivity.
Qed.

Lemma tail_ok_last_two l s c :
  is_cx_leaf s = false -> tail_ok (l ++ [s; c]) = true.
Proof.
  intros Hs. induction l as [| q l IH].
  - now apply tail_ok_short.
  - cbn [app tail_ok]. rewrite IH, andb_true_r.
    destruct l as [| q' l'].
    + cbn. now rewrite Hs.
    + rewrite two_cx_long; [reflexivity |].
      cbn [app List.length]. rewrite length_app. cbn. lia.
Qed.

Lemma tail_ok_no_cx l :
  Forall (fun x => is_cx_leaf x = false) l -> tail_ok l = true.
Proof.
  induction 1 as [| p rest Hp Hrest IH]; [reflexivity |].
  cbn [tail_ok]. rewrite IH, andb_true_r.
  destruct rest as [| c1 [| c2 [| ? ?]]]; try reflexivity.
  inversion Hrest as [| ? ? H1 _]; subst. cbn. now rewrite H1.
Qed.

Lemma plain_reverse k t : plain k t -> plain k (reverse t).
Proof.
  induction 1 as [a q | a q | k a b c t Ha IHa Hb IHb].
  - constructor.
  - constructor.
  - cbn [reverse map rev app]. now constructor.
Qed.

Lemma mux_tree_plain num_qubits self_qargs (G : Q -> qubit -> Gate) bottom k :
  G = RZGate \/ G = RYGate ->
  k + 1 + bottom < num_qubits ->
  forall l, plain k (mux_tree num_qubits self_qargs G bottom k l).
Proof.
  intros HG. induction k as [| k IH]; intros Hk l.
  - destruct HG as [-> | ->]; constructor.
  - cbn [mux_tree].
    replace (num_qubits =? S k + 1 + bottom)%nat with false
      by (symmetry; apply Nat.eqb_neq; lia).
    cbn [app]. constructor; [| apply plain_reverse]; apply IH; lia.
Qed.

Lemma rzr_child_cnot c t :
  rzr_child (Leaf (CnotGate c t)) = [Leaf (CnotGate c t)].
Proof. reflexivity. Qed.

Lemma rzr_child_nonempty d :
  snd (rzr_data d) <> [] ->
  rzr_child (Composite d) = [Composite (snd (rzr_data d))].
Proof. cbn [rzr_child]. destruct (snd (rzr_data d)); congruence. Qed.

Lemma plain_leaf_calm t : plain 0 t -> calm t = true.
Proof. inversion 1; reflexivity. Qed.

(** What zero-rotation elimination leaves of an inner multiplexor:
    nothing or the rotation itself for k = 0, one calm composite
    otherwise. *)
Lemma rzr_plain k t :
  plain k t ->
  match k with
  | O => rzr_child t = [] \/ (rzr_child t = [t] /\ is_other_leaf t = true)
  | S _ => exists d, rzr_child t = [Composite d]
                     /\ calm (Composite d) = true
  end.
Proof.
  induction 1 as [a q | a q | k a b c t Ha IHa Hb IHb].
  - cbn [rzr_child]. destruct (zero_rotationb _); auto.
  - cbn [rzr_child]. destruct (zero_rotationb _); auto.
  - assert (E : snd (rzr_data [a; Leaf (CnotGate c t); b])
                = rzr_child a ++ [Leaf (CnotGate c t)] ++ rzr_child b).
    { rewrite rzr_data_flat_map. cbn [flat_map].
      now rewrite rzr_child_cnot, app_nil_r. }
    rewrite rzr_child_nonempty by (rewrite E; now destruct (rzr_child a)).
    eexists. split; [reflexivity |]. rewrite E. clear E.
    destruct k as [| k].
    + pose proof (plain_leaf_calm a Ha) as Ha0.
      pose proof (plain_leaf_calm b Hb) as Hb0.
      destruct IHa as [-> | [-> Hoa]], IHb as [-> | [-> Hob]];
        cbn [app calm forallb]; rewrite ?Ha0, ?Hb0.
      * reflexivity.
      * now rewrite tail_ok_short.
      * now rewrite tail_ok_short.
      * assert (Hb1 : is_cx_leaf (Leaf (CnotGate c t)) = true)
          by reflexivity.
        assert (Hb2 : is_cx_leaf b = false)
          by (destruct b; [cbn in *; now destruct (name g =? "cx")
                          | reflexivity]).
        cbn [tail_ok two_cx]. rewrite Hb1, Hb2. reflexivity.
    + destruct IHa as (da & -> & Hca), IHb as (db & -> & Hcb).
      cbn [app]. cbn [calm] in Hca, Hcb |- *.
      cbn [forallb calm]. rewrite Hca, Hcb. reflexivity.
Qed.

(** The outermost multiplexor, with its trailing CNOT. *)
Lemma rzr_outer k a b c t :
  plain k a -> plain k b ->
  exists d,
    rzr_child (Composite [a; Leaf (CnotGate c t); b; Leaf (CnotGate c t)])
    = [Composite d] /\ calm (Composite d) = true.
Proof.
  intros Ha Hb.
  assert (E : snd (rzr_data [a; Leaf (CnotGate c t); b;
                             Leaf (CnotGate c t)])
              = rzr_child a ++ [Leaf (CnotGate c t)] ++ rzr_child b
                ++ [Leaf (CnotGate c t)]).
  { rewrite rzr_data_flat_map. cbn [flat_map].
    now rewrite rzr_child_cnot, app_nil_r. }
  rewrite rzr_child_nonempty by (rewrite E; now destruct (rzr_child a)).
  eexists. split; [reflexivity |]. rewrite E. clear E.
  pose proof (rzr_plain k a Ha) as IHa.
  pose proof (rzr_plain k b Hb) as IHb.
  destruct k as [| k].
  - pose proof (plain_leaf_calm a Ha) as Ha0.
    pose proof (plain_leaf_calm b Hb) as Hb0.
    assert (Hcx : forall x, is_other_leaf x = true -> is_cx_leaf x = false)
      by (intros [g |]; [cbn; now destruct (name g =? "cx")
                        | reflexivity]).
    destruct IHa as [-> | [-> Hoa]], IHb as [-> | [-> Hob]];
      cbn [app calm forallb]; rewrite ?Ha0, ?Hb0.
    + reflexivity.
    + cbn [tail_ok two_cx]. now rewrite (Hcx b Hob).
    + cbn [tail_ok two_cx]. now rewrite Hoa.
    + cbn [tail_ok two_cx]. now rewrite (Hcx b Hob).
  - destruct IHa as (da & -> & Hca), IHb as (db & -> & Hcb).
    cbn [app]. cbn [calm] in Hca, Hcb |- *.
    cbn [forallb calm]. rewrite Hca, Hcb. reflexivity.
Qed.

Lemma rzr_mux_outer num_qubits self_qargs (G : Q -> qubit -> Gate)
  bottom k l :
  G = RZGate \/ G = RYGate ->
  num_qubits = k + 1 + bottom ->
  Forall quiet (rzr_child (mux_tree num_qubits self_qargs G bottom k l)).
Proof.
  intros HG Hn. destruct k as [| k].
  - assert (Hp : plain 0 (mux_tree num_qubits self_qargs G bottom 0 l))
      by (destruct HG as [-> | ->]; constructor).
    destruct (rzr_plain 0 _ Hp) as [-> | [-> Ho]]; [constructor |].
    constructor; [| constructor]. split.
    + revert Ho. generalize (mux_tree num_qubits self_qargs G bottom 0 l).
      intros [g |]; [cbn; now destruct (name g =? "cx") | reflexivity].
    + now apply plain_leaf_calm.
  - cbn [mux_tree].
    replace (num_qubits =? S k + 1 + bottom)%nat with true
      by (symmetry; apply Nat.eqb_eq; lia).
    cbn [app].
    destruct (rzr_outer k
                (mux_tree num_qubits self_qargs G bottom k
                   (firstn (2 ^ k) (transformed l)))
                (reverse (mux_tree num_qubits self_qargs G bottom k
                            (skipn (2 ^ k) (transformed l))))
                (nth (S k + bottom) self_qargs 0)
                (nth bottom self_qargs 0))
      as (d & -> & Hc).
    + apply mux_tree_plain; [exact HG | lia].
    + apply plain_reverse, mux_tree_plain; [exact HG | lia].
    + constructor; [| constructor]. split; [reflexivity | exact Hc].
Qed.

(** ** Disentangling and the uncompute loop *)

Lemma _rotations_to_disentangle_length_aux np n : forall l,
  List.length l < n ->
  let r := _rotations_to_disentangle np l in
  List.length (fst (fst r)) = List.length l / 2 /\
  List.length (snd (fst r)) = List.length l / 2 /\
  List.length (snd r) = List.length l / 2.
Proof.
  induction n as [| n IH]; intros l Hlen; [lia |].
  destruct l as [| a [| b rest]]; [now cbn | now cbn |].
  cbn [_rotations_to_disentangle].
  destruct (_bloch_angles np a b) as [[remains theta] phi].
  specialize (IH rest ltac:(simpl in Hlen; lia)). cbv zeta in IH.
  destruct (_rotations_to_disentangle np rest) as [[rv th] ph].
  cbn [fst snd List.length] in *.
  replace (S (S (List.length rest))) with (List.length rest + 1 * 2) by lia.
  rewrite Nat.div_add by lia. lia.
Qed.

(** X20.  [_rotations_to_disentangle] halves the vector: the remaining
    vector and the two angle lists all have [len // 2] entries, a last
    unpaired amplitude being ignored. *)
Theorem _rotations_to_disentangle_length (np : Numpy)
  (local_param : list complex) :
  let r := _rotations_to_disentangle np local_param in
  List.length (fst (fst r)) = List.length local_param / 2 /\
  List.length (snd (fst r)) = List.length local_param / 2 /\
  List.length (snd r) = List.length local_param / 2.
Proof.
  apply (_rotations_to_disentangle_length_aux np
           (S (List.length local_param))). lia.
Qed.

Lemma leaves_uncompute_gate qargs (G : Q -> qubit -> Gate) i k t target :
  (G = RZGate \/ G = RYGate) ->
  nth_error qargs i = Some target ->
  Forall (fun g =>
            (exists a, g = G a target) \/
            (exists j control,
                1 <= j <= k /\
                nth_error qargs (j + i) = Some control /\
                g = CnotGate control target))
    (leaves t) ->
  Forall (uncompute_gate qargs) (leaves t).
Proof.
  intros HG Ht H. eapply Forall_impl; [| exact H].
  intros g [[a ->] | (j & c & Hj & Hc & ->)].
  - left. exists i, a, target. split; [exact Ht |].
    destruct HG as [-> | ->]; auto.
  - right. exists i, (j + i), c, target. repeat split; auto. lia.
Qed.

Lemma uncompute_size_step count :
  2 * (2 ^ (count + 1) - 1
       + (if (1 <=? count)%nat && true then 1 else 0))
  + uncompute_size count
  = uncompute_size (S count).
Proof.
  destruct count as [| count]; [reflexivity |].
  cbn [Nat.leb andb uncompute_size].
  replace (S (S count) + 2) with (S (S count + 2)) by lia.
  replace (S count + 2) with (S (S count + 1)) by lia.
  rewrite !Nat.pow_succ_r'.
  pose proof (Nat.pow_nonzero 2 (S count + 1) ltac:(lia)) as Hp.
  assert (4 <= 2 ^ (S count + 1)).
  { replace (S count + 1) with (S (S count)) by lia.
    rewrite !Nat.pow_succ_r'.
    pose proof (Nat.pow_nonzero 2 count ltac:(lia)). lia. }
  lia.
Qed.

Lemma uncompute_loop_spec np n qargs count : forall i remaining data,
  List.length qargs = n ->
  i + count = n ->
  List.length remaining = 2 ^ count ->
  exists z new,
    uncompute_loop np n qargs count i remaining data
    = ret ([z], data ++ new) /\
    List.length new = 2 * count /\
    List.length (leaves_data new) = uncompute_size count /\
    Forall (uncompute_gate qargs) (leaves_data new) /\
    Forall (fun t => Forall quiet (rzr_child t)) new.
Proof.
  induction count as [| count IH]; intros i remaining data Hq Hi Hlen.
  - destruct remaining as [| z [| ? ?]]; try discriminate.
    exists z, []. cbn [uncompute_loop]. rewrite app_nil_r.
    repeat split; constructor.
  - cbn [uncompute_loop].
    pose proof (_rotations_to_disentangle_length_aux np
                  (S (List.length remaining)) remaining ltac:(lia)) as Hr.
    cbv zeta in Hr. rewrite Hlen, pow2_half in Hr.
    destruct (_rotations_to_disentangle np remaining) as [[rem' thetas] phis].
    cbn [fst snd] in Hr. destruct Hr as (Hrem & Hth & Hph).
    set (rz := mux_tree n qargs RZGate i count phis).
    set (ry := mux_tree n qargs RYGate i count thetas).
    assert (Erz : multiplex n qargs RZGate i phis = ret rz)
      by (apply multiplex_mux_tree; [exact Hph | lia]).
    assert (Ery : multiplex n qargs RYGate i thetas = ret ry)
      by (apply multiplex_mux_tree; [exact Hth | lia]).
    pose proof (mux_tree_leaves_count n qargs RZGate i count phis
                  ltac:(lia)) as Srz.
    pose proof (mux_tree_leaves_count n qargs RYGate i count thetas
                  ltac:(lia)) as Sry.
    pose proof (mux_tree_leaves_shape n qargs RZGate i count phis) as Qrz.
    pose proof (mux_tree_leaves_shape n qargs RYGate i count thetas) as Qry.
    fold rz in Srz, Qrz. fold ry in Sry, Qry.
    assert (Ht : nth_error qargs i = Some (nth i qargs 0))
      by (apply nth_error_nth'; lia).
    rewrite Erz, Ery. cbn [bind ret].
    destruct (IH (S i) rem' (data ++ [rz; ry]) Hq ltac:(lia) Hrem)
      as (z & new & E & Hn & Hs & Hg & Hquiet).
    exists z, ([rz; ry] ++ new). rewrite app_assoc. split; [exact E |].
    rewrite length_app, leaves_data_app, length_app.
    replace (n =? count + 1 + i)%nat with true in Srz, Sry
      by (symmetry; apply Nat.eqb_eq; lia).
    split; [cbn [List.length]; lia |]. split; [| split].
    + rewrite Hs, <- uncompute_size_step.
      unfold leaves_data. cbn [flat_map]. rewrite app_nil_r, length_app.
      rewrite Srz, Sry. lia.
    + apply Forall_app. split; [| exact Hg].
      unfold leaves_data. cbn [flat_map]. rewrite app_nil_r.
      apply Forall_app. split.
      * eapply (leaves_uncompute_gate qargs RZGate i count);
          [now left | exact Ht |].
        eapply Forall_impl; [| exact Qrz].
        intros g [Ha | [j [Hj Hgj]]]; [now left | right].
        exists j, (nth (j + i) qargs 0).
        split; [exact Hj |]. split; [apply nth_error_nth'; lia | exact Hgj].
      * eapply (leaves_uncompute_gate qargs RYGate i count);
          [now right | exact Ht |].
        eapply Forall_impl; [| exact Qry].
        intros g [Ha | [j [Hj Hgj]]]; [now left | right].
        exists j, (nth (j + i) qargs 0).
        split; [exact Hj |]. split; [apply nth_error_nth'; lia | exact Hgj].
    + constructor; [| constructor; [| exact Hquiet]];
        apply rzr_mux_outer; auto; lia.
Qed.

(** X21.  For a vector of [2 ^ n] amplitudes on n >= 1 qubits,
    [gates_to_uncompute] raises nothing and attaches 2n nodes, a Z and a
    Y multiplexor for each qubit, with [2 ^ (n + 2) - 6] leaf gates in
    all, whatever the angles are. *)
Theorem gates_to_uncompute_size (np : Numpy) (n : nat)
  (params : list complex) (qargs : list qubit) :
  1 <= n ->
  List.length params = 2 ^ n ->
  List.length qargs = n ->
  exists z data,
    gates_to_uncompute np n params qargs = ret (z, data) /\
    List.length data = 2 * n /\
    number_atomic_gates (Composite data) = 2 ^ (n + 2) - 6.
Proof.
  intros Hn Hlen Hq. unfold gates_to_uncompute.
  destruct (uncompute_loop_spec np n qargs n 0 params [] Hq
              ltac:(lia) Hlen) as (z & new & E & Hl & Hs & _ & _).
  rewrite E. cbn [bind ret fst snd app]. exists z, new.
  split; [reflexivity |]. split; [exact Hl |].
  rewrite number_atomic_gates_leaves.
  change (leaves (Composite new)) with (leaves_data new).
  rewrite Hs. destruct n; [lia | reflexivity].
Qed.

Lemma gates_to_uncompute_size_witness :
  exists z data,
    gates_to_uncompute kernels_for_examples 2
      [Complex 1 0; Complex 0 0; Complex 0 0; Complex 0 0] [0; 1]
    = ret (z, data) /\
    List.length data = 4 /\
    number_atomic_gates (Composite data) = 10.
Proof.
  apply (gates_to_uncompute_size kernels_for_examples 2
           [Complex 1 0; Complex 0 0; Complex 0 0; Complex 0 0] [0; 1]);
    [lia | reflexivity | reflexivity].
Defined.

(** X22.  The gates of the uncompute circuit.  For a vector of [2 ^ n]
    amplitudes on n qubits every leaf [gates_to_uncompute] attaches is a
    Z or Y rotation on one of the qubits, or a CNOT onto one of them
    controlled by a qubit further up the list [qargs]. *)
Theorem gates_to_uncompute_gates (np : Numpy) (n : nat)
  (params : list complex) (qargs : list qubit) :
  List.length params = 2 ^ n ->
  List.length qargs = n ->
  exists z data,
    gates_to_uncompute np n params qargs = ret (z, data) /\
    Forall (uncompute_gate qargs) (leaves_data data).
Proof.
  intros Hlen Hq. unfold gates_to_uncompute.
  destruct (uncompute_loop_spec np n qargs n 0 params [] Hq
              ltac:(lia) Hlen) as (z & new & E & _ & _ & Hg & _).
  rewrite E. cbn [bind ret fst snd app]. eauto.
Qed.

Lemma gates_to_uncompute_gates_witness :
  exists z data,
    gates_to_uncompute kernels_for_examples 2
      [Complex 1 0; Complex 0 0; Complex 0 0; Complex 0 0] [0; 1]
    = ret (z, data) /\
    Forall (uncompute_gate [0; 1]) (leaves_data data).
Proof.
  apply (gates_to_uncompute_gates kernels_for_examples 2
           [Complex 1 0; Complex 0 0; Complex 0 0; Complex 0 0] [0; 1]);
    reflexivity.
Defined.

(* ------------------------------------------------------------------ *)
(** *** Calm trees: the properties *)

(** X23.  A sufficient condition for the pass not to raise.  Call a
    tree calm when every list in it that ends with two leaves named "cx"
    has nothing, or a leaf that is not a "cx", before them.  On a calm
    tree [remove_double_cnots_once] raises nothing, and the tree it leaves
    is calm again. *)
Theorem remove_double_cnots_once_on_calm (data : list tree) :
  calm (Composite data) = true ->
  (exists b, fst (rdco_data data) = Returned b) /\
  calm (Composite (snd (rdco_data data))) = true.
Proof.
  intros Hc. apply rdco_body_calm; [| exact Hc].
  apply Forall_forall. intros x _. apply remove_double_cnots_once_calm.
Qed.

Lemma remove_double_cnots_once_on_calm_witness :
  (exists b,
      fst (rdco_data [Leaf (RZGate 1 0); Leaf (CnotGate 1 0);
                      Leaf (CnotGate 1 0)]) = Returned b) /\
  calm (Composite (snd (rdco_data [Leaf (RZGate 1 0); Leaf (CnotGate 1 0);
                                   Leaf (CnotGate 1 0)]))) = true.
Proof.
  apply remove_double_cnots_once_on_calm. reflexivity.
Defined.

(** X24.  When the tree is calm once its zero rotations are gone,
    [optimize_gates] returns: no pass of its loop raises. *)
Theorem optimize_gates_on_calm (data : list tree) :
  calm (Composite (snd (rzr_data data))) = true ->
  exists data',
    optimize_gates data = Some (Returned tt, data') /\
    calm (Composite data') = true.
Proof.
  intros Hc. destruct (optimize_gates_total data) as [[o data'] H].
  exists data'. unfold optimize_gates in *.
  destruct (cnot_loop_calm _ _ _ Hc H) as [Ho Hc']. cbn [fst snd] in *.
  subst o. auto.
Qed.

Lemma optimize_gates_on_calm_witness :
  exists data',
    optimize_gates [Composite [Leaf (RZGate 1 0); Leaf (CnotGate 1 0);
                               Leaf (RZGate 0 0); Leaf (CnotGate 1 0)];
                    Leaf (RYGate 1 1)]
    = Some (Returned tt, data') /\
    calm (Composite data') = true.
Proof.
  apply optimize_gates_on_calm. reflexivity.
Defined.

(* ------------------------------------------------------------------ *)
(** ** The constructor on a valid request *)

Lemma flat_map_Forall {A B : Type} (P : B -> Prop) (f : A -> list B) l :
  Forall (fun x => Forall P (f x)) l -> Forall P (flat_map f l).
Proof.
  induction 1 as [| x l Hx _ IH]; [constructor |].
  cbn [flat_map]. apply Forall_app. now split.
Qed.

Lemma quiet_calm l : Forall quiet l -> calm (Composite l) = true.
Proof.
  intros H. cbn [calm]. rewrite tail_ok_no_cx.
  - apply forallb_forall. intros x Hx.
    rewrite Forall_forall in H. now apply H.
  - eapply Forall_impl; [| exact H]. now intros x [Hx _].
Qed.

Lemma init_constructed (np : Numpy) (inverse : list tree -> list tree)
  (n : nat) (params : list complex) (qargs : list qubit) :
  1 <= n ->
  List.length params = 2 ^ n ->
  List.length qargs = n ->
  isclose (sum (map absolute_squared params)) 1 _EPS = true ->
  exists z data data',
    gates_to_uncompute np n params qargs = ret (z, data) /\
    optimize_gates data = Some (Returned tt, data') /\
    InitializeGate__init__ np inverse params qargs
    = ret {| init_num_qubits := n;
             init_params := params;
             init_qargs := qargs;
             init_data := inverse data';
             global_phase := conjugate z;
             inverse_flag := false |}.
Proof.
  intros Hn Hlen Hq Hsum.
  destruct (uncompute_loop_spec np n qargs n 0 params [] Hq
              ltac:(lia) Hlen) as (z & data & E & _ & _ & _ & Hquiet).
  cbn [app] in E.
  assert (Eg : gates_to_uncompute np n params qargs = ret (z, data))
    by (unfold gates_to_uncompute; now rewrite E).
  assert (Hc : calm (Composite (snd (rzr_data data))) = true).
  { rewrite rzr_data_flat_map. apply quiet_calm.
    now apply flat_map_Forall. }
  destruct (optimize_gates_total data) as [[o data'] Ho].
  assert (Ho' := Ho). unfold optimize_gates in Ho'.
  destruct (cnot_loop_calm _ _ _ Hc Ho') as [Hr _]. cbn [fst] in Hr.
  subst o. exists z, data, data'.
  split; [exact Eg |]. split; [exact Ho |].
  unfold InitializeGate__init__.
  destruct (shape_check_pow2 n Hn) as (E0 & El & Es).
  rewrite Hlen, E0, Es, El.
  apply Nat.eqb_eq in Hq. rewrite Hq. cbn [negb].
  rewrite Hsum. cbn [negb].
  rewrite Eg. cbn [bind ret fst snd].
  unfold optimized. rewrite Ho. reflexivity.
Qed.

(** X25.  A valid request is always served.  For [2 ^ n] amplitudes
    (n >= 1) on n qubits whose squared magnitudes sum to 1 within
    [_EPS], [InitializeGate.__init__] raises nothing: the uncompute
    circuit is built, [optimize_gates] returns on it, and the object holds
    the inverse of the optimized circuit, the conjugate of the remaining
    amplitude as global phase, and [inverse_flag = False]. *)
Theorem InitializeGate_constructed (np : Numpy)
  (inverse : list tree -> list tree)
  (n : nat) (params : list complex) (qargs : list qubit) :
  1 <= n ->
  List.length params = 2 ^ n ->
  List.length qargs = n ->
  (Qabs (1 - sum (map absolute_squared params)) <= _EPS)%Q ->
  exists z data data',
    gates_to_uncompute np n params qargs = ret (z, data) /\
    optimize_gates data = Some (Returned tt, data') /\
    InitializeGate__init__ np inverse params qargs
    = ret {| init_num_qubits := n;
             init_params := params;
             init_qargs := qargs;
             init_data := inverse data';
             global_phase := conjugate z;
             inverse_flag := false |}.
Proof.
  intros Hn Hlen Hq Hsum. apply init_constructed; auto.
  unfold isclose. apply Qle_bool_iff in Hsum. rewrite Hsum.
  now rewrite !orb_true_r.
Qed.

Lemma InitializeGate_constructed_witness :
  exists z data data',
    gates_to_uncompute kernels_for_examples 2
      [Complex 1 0; Complex 0 0; Complex 0 0; Complex 0 0] [0; 1]
    = ret (z, data) /\
    optimize_gates data = Some (Returned tt, data') /\
    InitializeGate__init__ kernels_for_examples (fun data => data)
      [Complex 1 0; Complex 0 0; Complex 0 0; Complex 0 0] [0; 1]
    = ret {| init_num_qubits := 2;
             init_params :=
               [Complex 1 0; Complex 0 0; Complex 0 0; Complex 0 0];
             init_qargs := [0; 1];
             init_data := data';
             global_phase := conjugate z;
             inverse_flag := false |}.
Proof.
  apply (InitializeGate_constructed kernels_for_examples (fun data => data) 2
           [Complex 1 0; Complex 0 0; Complex 0 0; Complex 0 0] [0; 1]);
    [lia | reflexivity | reflexivity | vm_compute; discriminate].
Defined.


(** X27.  The size of the initializer.  For [2 ^ n] amplitudes on
    n >= 1 qubits the optimized uncompute circuit has at most
    [2 ^ (n + 2) - 6] leaf gates; each is an rz or ry on one of the qubits
    or a cx onto one of them controlled from further up [qargs], and no
    rotation among them has an angle below [_EPS]. *)
Theorem initializer_gate_bound (np : Numpy) (n : nat)
  (params : list complex) (qargs : list qubit) :
  1 <= n ->
  List.length params = 2 ^ n ->
  List.length qargs = n ->
  exists z data data',
    gates_to_uncompute np n params qargs = ret (z, data) /\
    optimize_gates data = Some (Returned tt, data') /\
    number_atomic_gates (Composite data') <= 2 ^ (n + 2) - 6 /\
    Forall (uncompute_gate qargs) (leaves_data data') /\
    Forall (fun g => ~ zero_rotation g) (leaves_data data').
Proof.
  intros Hn Hlen Hq.
  destruct (uncompute_loop_spec np n qargs n 0 params [] Hq
              ltac:(lia) Hlen) as (z & data & E & _ & Hs & Hg & Hquiet).
  cbn [app] in E.
  assert (Eg : gates_to_uncompute np n params qargs = ret (z, data))
    by (unfold gates_to_uncompute; now rewrite E).
  assert (Hc : calm (Composite (snd (rzr_data data))) = true).
  { rewrite rzr_data_flat_map. apply quiet_calm.
    now apply flat_map_Forall. }
  destruct (optimize_gates_total data) as [[o data'] Ho].
  assert (Ho' := Ho). unfold optimize_gates in Ho'.
  destruct (cnot_loop_calm _ _ _ Hc Ho') as [Hr _]. cbn [fst] in Hr.
  subst o. exists z, data, data'.
  split; [exact Eg |]. split; [exact Ho |].
  apply cnot_loop_spec in Ho'. destruct Ho' as [Hcan _].
  rewrite rzr_data_leaves in Hcan.
  split; [| split].
  - rewrite number_atomic_gates_leaves.
    change (leaves (Composite data')) with (leaves_data data').
    apply cancels_length in Hcan.
    pose proof (filter_length_le kept (leaves_data data)) as Hf.
    rewrite Hs in Hf. destruct n; [lia |]. cbn [uncompute_size] in Hf. lia.
  - eapply cancels_Forall; [exact Hcan |].
    apply Forall_forall. intros g Hin. apply filter_In in Hin.
    rewrite Forall_forall in Hg. now apply Hg.
  - eapply cancels_Forall; [exact Hcan |].
    apply Forall_forall. intros g Hin. apply filter_In in Hin.
    now apply kept_not_zero.
Qed.

Lemma initializer_gate_bound_witness :
  exists z data data',
    gates_to_uncompute kernels_for_examples 2
      [Complex 1 0; Complex 0 0; Complex 0 0; Complex 0 0] [0; 1]
    = ret (z, data) /\
    optimize_gates data = Some (Returned tt, data') /\
    number_atomic_gates (Composite data') <= 2 ^ (2 + 2) - 6 /\
    Forall (uncompute_gate [0; 1]) (leaves_data data') /\
    Forall (fun g => ~ zero_rotation g) (leaves_data data').
Proof.
  apply (initializer_gate_bound kernels_for_examples 2
           [Complex 1 0; Complex 0 0; Complex 0 0; Complex 0 0] [0; 1]);
    [lia | reflexivity | reflexivity].
Defined.

(** ** The global-phase gate *)

(** X28.  A [GlobalPhaseGate] that is constructed holds exactly two
    leaf gates, a u3 and an x on the first qubit, and [optimize_gates]
    leaves it as it is: neither gate is a rotation the first pass deletes,
    whatever the phase, and there is no CNOT to cancel. *)
Theorem GlobalPhaseGate_optimized (np : Numpy) (params : list complex)
  (qs : list qubit) (g : GlobalPhaseGate) :
  GlobalPhaseGate__init__ np params qs = ret g ->
  number_atomic_gates (Composite (phase_data g)) = 2 /\
  (exists q0, nth_error qs 0 = Some q0 /\
              Forall (fun x => qargs x = [q0]) (leaves_data (phase_data g)))
  /\ optimize_gates (phase_data g) = Some (Returned tt, phase_data g).
Proof.
  unfold GlobalPhaseGate__init__. intros H.
  destruct qs as [| q0 qs]; [discriminate |].
  destruct params as [| p0 [| ? ?]]; try discriminate.
  destruct (isclose _ 1 _EPS); [| discriminate].
  cbn [negb] in H. injection H as <-. cbn [phase_data].
  split; [reflexivity |]. split.
  - exists q0. split; [reflexivity |]. repeat constructor.
  - reflexivity.
Qed.

Lemma GlobalPhaseGate_optimized_witness :
  number_atomic_gates
    (Composite [Leaf (U3Gate (355 # 113)%Q 0%Q ((355 # 113) + 0)%Q 7);
                Leaf (XGate 7)]) = 2 /\
  (exists q0, nth_error [7; 8] 0 = Some q0 /\
              Forall (fun x => qargs x = [q0])
                (leaves_data [Leaf (U3Gate (355 # 113)%Q 0%Q ((355 # 113) + 0)%Q 7);
                              Leaf (XGate 7)]))
  /\ optimize_gates [Leaf (U3Gate (355 # 113)%Q 0%Q ((355 # 113) + 0)%Q 7);
                     Leaf (XGate 7)]
     = Some (Returned tt,
             [Leaf (U3Gate (355 # 113)%Q 0%Q ((355 # 113) + 0)%Q 7);
              Leaf (XGate 7)]).
Proof.
  apply (GlobalPhaseGate_optimized kernels_for_examples [Complex 1 0] [7; 8]
           {| phase_params := [Complex 1 0];
              phase_qargs := [7; 8];
              phase_data :=
                [Leaf (U3Gate (355 # 113)%Q 0%Q ((355 # 113) + 0)%Q 7);
                 Leaf (XGate 7)] |}).
  reflexivity.
Defined.

(** ** The checks of the constructor *)


